(** * AI Roadmap Creator: the session logic of [src/App.tsx]

    A shallow embedding of the [App] component's handlers
    ([saveRoadmap], [loadRoadmap], [generateRoadmap]), of the state
    initialisers that read [localStorage], and of the platform functions
    they call ([String.prototype.trim], [String.prototype.match] with the
    pattern [/\[[\s\S]*\]/], [JSON.parse], [JSON.stringify]). *)

From Stdlib Require Import NArith Ascii String List Bool Lia.
From stdpp Require Import base option list gmap strings.

Local Open Scope N_scope.

(** ** JavaScript strings

    A JavaScript string is a sequence of UTF-16 code units.  A code unit
    is kept as an [N]; real ones are below [0x10000], and nothing below
    depends on that bound. *)

Abbreviation jsstring := (list N).

(** ASCII literals of the source, as code units. *)
Fixpoint lit (s : string) : jsstring :=
  match s with
  | EmptyString => []
  | String a r => N_of_ascii a :: lit r
  end.

(** The same, with every apostrophe standing for a double quote: sample
    JSON texts are written with it. *)
Fixpoint litq (s : string) : jsstring :=
  match s with
  | EmptyString => []
  | String a r => (if N_of_ascii a =? 0x27 then 0x22 else N_of_ascii a) :: litq r
  end.

Module JS.

(** ECMA-262 WhiteSpace and LineTerminator code points: what [trim]
    strips (and what [\s] matches). *)
Definition is_white_space (c : N) : bool :=
  (c =? 0x09) || (c =? 0x0A) || (c =? 0x0B) || (c =? 0x0C) || (c =? 0x0D)
  || (c =? 0x20) || (c =? 0xA0) || (c =? 0x1680)
  || ((0x2000 <=? c) && (c <=? 0x200A))
  || (c =? 0x2028) || (c =? 0x2029) || (c =? 0x202F) || (c =? 0x205F)
  || (c =? 0x3000) || (c =? 0xFEFF).

Fixpoint trimStart (s : jsstring) : jsstring :=
  match s with
  | [] => []
  | c :: r => if is_white_space c then trimStart r else s
  end.

Definition trimEnd (s : jsstring) : jsstring := rev (trimStart (rev s)).

(** [s.trim()] *)
Definition trim (s : jsstring) : jsstring := trimEnd (trimStart s).

(** ToBoolean on a string: the empty string is the only falsy one. *)
Definition truthy (s : jsstring) : bool :=
  match s with [] => false | _ :: _ => true end.

(** *** [text.match(/\[[\s\S]*\]/)]

    The pattern has no flags, so [match] returns the leftmost match and
    element 0 of the result is the matched substring.  [[\s\S]] accepts
    every code unit and the star is greedy: from a start position
    holding an opening bracket the longest continuation ending in a closing
    bracket is taken; when there is none, the next start position is
    tried. *)

Definition OPEN : N := 0x5B.
Definition CLOSE : N := 0x5D.

(** The longest prefix of [s] that ends in a closing bracket. *)
Fixpoint greedy_to_close (s : jsstring) : option jsstring :=
  match s with
  | [] => None
  | c :: r =>
      match greedy_to_close r with
      | Some m => Some (c :: m)
      | None => if c =? CLOSE then Some [c] else None
      end
  end.

Fixpoint match_bracketed (text : jsstring) : option jsstring :=
  match text with
  | [] => None
  | c :: r =>
      if c =? OPEN then
        match greedy_to_close r with
        | Some m => Some (c :: m)
        | None => match_bracketed r
        end
      else match_bracketed r
  end.

End JS.

(** ** JSON values

    What [JSON.parse] returns.  An object keeps its own properties in
    property order.  A number is kept as the literal that denoted it: the
    conversion to a double is not modelled, and no statement below looks
    inside a number. *)

#[warnings="-register-all"]
Inductive json : Type :=
| JNull
| JBool (b : bool)
| JNumber (literal : jsstring)
| JString (s : jsstring)
| JArray (items : list json)
| JObject (members : list (jsstring * json)).

Module JSON.

(** *** Objects: property definition and lookup *)

Definition key_eqb (a b : jsstring) : bool := bool_decide (a = b).

Fixpoint get (k : jsstring) (o : list (jsstring * json)) : option json :=
  match o with
  | [] => None
  | (k', v) :: r => if key_eqb k k' then Some v else get k r
  end.

Definition is_digit (c : N) : bool := (0x30 <=? c) && (c <=? 0x39).

Definition digits_value (s : jsstring) : N :=
  fold_left (fun n c => 10 * n + (c - 0x30)) s 0.

(** An array index is the canonical decimal form of an integer below
    [2^32 - 1]; such keys come first in property order, ascending. *)
Definition array_index (k : jsstring) : option N :=
  match k with
  | [] => None
  | c :: r =>
      if forallb is_digit k && (negb (c =? 0x30) || bool_decide (r = []))
         && (N.of_nat (length k) <=? 10)
      then let n := digits_value k in
           if n <? 0xFFFFFFFF then Some n else None
      else None
  end.

Fixpoint replace (k : jsstring) (v : json) (o : list (jsstring * json))
  : list (jsstring * json) :=
  match o with
  | [] => []
  | (k', v') :: r =>
      if key_eqb k k' then (k', v) :: r else (k', v') :: replace k v r
  end.

Fixpoint insert_index (n : N) (k : jsstring) (v : json)
  (o : list (jsstring * json)) : list (jsstring * json) :=
  match o with
  | [] => [(k, v)]
  | (k', v') :: r =>
      match array_index k' with
      | Some m => if m <? n then (k', v') :: insert_index n k v r
                  else (k, v) :: o
      | None => (k, v) :: o
      end
  end.

(** CreateDataProperty: an existing key keeps its place and takes the new
    value; a new array-index key goes among the index keys; any other new
    key goes last. *)
Definition define (o : list (jsstring * json)) (kv : jsstring * json)
  : list (jsstring * json) :=
  let (k, v) := kv in
  match get k o with
  | Some _ => replace k v o
  | None =>
      match array_index k with
      | Some n => insert_index n k v o
      | None => o ++ [(k, v)]
      end
  end.

Definition object_of_members (ms : list (jsstring * json)) : json :=
  JObject (fold_left define ms []).

(** *** Scanners *)

Definition is_json_ws (c : N) : bool :=
  (c =? 0x09) || (c =? 0x0A) || (c =? 0x0D) || (c =? 0x20).

Fixpoint skip_ws (s : jsstring) : jsstring :=
  match s with
  | [] => []
  | c :: r => if is_json_ws c then skip_ws r else s
  end.

Definition hex_value (c : N) : option N :=
  if is_digit c then Some (c - 0x30)
  else if (0x61 <=? c) && (c <=? 0x66) then Some (c - 0x61 + 10)
  else if (0x41 <=? c) && (c <=? 0x46) then Some (c - 0x41 + 10)
  else None.

Definition hex4 (a b c d : N) : option N :=
  match hex_value a, hex_value b, hex_value c, hex_value d with
  | Some x, Some y, Some z, Some w => Some (((x * 16 + y) * 16 + z) * 16 + w)
  | _, _, _, _ => None
  end.

(** JSONEscapeCharacter: the quote, the slash, the backslash, or one of
    [b], [f], [n], [r], [t]. *)
Definition unescape (e : N) : option N :=
  if e =? 0x22 then Some 0x22
  else if e =? 0x2F then Some 0x2F
  else if e =? 0x5C then Some 0x5C
  else if e =? 0x62 then Some 0x08
  else if e =? 0x66 then Some 0x0C
  else if e =? 0x6E then Some 0x0A
  else if e =? 0x72 then Some 0x0D
  else if e =? 0x74 then Some 0x09
  else None.

(** The characters of a string literal after its opening quote, up to and
    including the closing quote. *)
Fixpoint scan_chars (s : jsstring) : option (jsstring * jsstring) :=
  match s with
  | [] => None
  | c :: r =>
      if c =? 0x22 then Some ([], r)
      else if c =? 0x5C then
        match r with
        | [] => None
        | e :: r1 =>
            if e =? 0x75 then
              match r1 with
              | a :: b :: c' :: d :: r2 =>
                  match hex4 a b c' d with
                  | Some u =>
                      match scan_chars r2 with
                      | Some (t, rest) => Some (u :: t, rest)
                      | None => None
                      end
                  | None => None
                  end
              | _ => None
              end
            else
              match unescape e with
              | Some u =>
                  match scan_chars r1 with
                  | Some (t, rest) => Some (u :: t, rest)
                  | None => None
                  end
              | None => None
              end
        end
      else if c <? 0x20 then None
      else
        match scan_chars r with
        | Some (t, rest) => Some (c :: t, rest)
        | None => None
        end
  end.

Fixpoint span_digits (s : jsstring) : jsstring * jsstring :=
  match s with
  | [] => ([], [])
  | c :: r =>
      if is_digit c then let (ds, rest) := span_digits r in (c :: ds, rest)
      else ([], s)
  end.

(** DecimalIntegerLiteral: [0], or a non-zero digit and more digits. *)
Definition scan_int (s : jsstring) : option (jsstring * jsstring) :=
  match s with
  | [] => None
  | c :: r =>
      if c =? 0x30 then Some ([c], r)
      else if is_digit c then let (ds, rest) := span_digits r in Some (c :: ds, rest)
      else None
  end.

Definition scan_frac (s : jsstring) : option (jsstring * jsstring) :=
  match s with
  | c :: r =>
      if c =? 0x2E then
        match span_digits r with
        | ([], _) => None
        | (ds, rest) => Some (c :: ds, rest)
        end
      else Some ([], s)
  | [] => Some ([], s)
  end.

Definition scan_exp (s : jsstring) : option (jsstring * jsstring) :=
  match s with
  | c :: r =>
      if (c =? 0x65) || (c =? 0x45) then
        let (sign, r1) :=
          match r with
          | g :: r' => if (g =? 0x2B) || (g =? 0x2D) then ([g], r') else ([], r)
          | [] => ([], r)
          end in
        match span_digits r1 with
        | ([], _) => None
        | (ds, rest) => Some (c :: sign ++ ds, rest)
        end
      else Some ([], s)
  | [] => Some ([], s)
  end.

Definition scan_number (s : jsstring) : option (jsstring * jsstring) :=
  let (minus, s1) :=
    match s with
    | c :: r => if c =? 0x2D then ([c], r) else ([], s)
    | [] => ([], s)
    end in
  match scan_int s1 with
  | None => None
  | Some (i, s2) =>
      match scan_frac s2 with
      | None => None
      | Some (f, s3) =>
          match scan_exp s3 with
          | None => None
          | Some (e, s4) => Some (minus ++ i ++ f ++ e, s4)
          end
      end
  end.

Fixpoint strip_prefix (p s : jsstring) : option jsstring :=
  match p, s with
  | [], _ => Some s
  | a :: p', b :: s' => if a =? b then strip_prefix p' s' else None
  | _ :: _, [] => None
  end.

(** *** The parser

    Recursive descent over the JSON grammar of ECMA-262.  The recursion is
    on a fuel counter; [Starved] is the outcome of too little fuel and is
    kept apart from [Bad], a syntax error.  [parse] supplies enough fuel
    for every input ([parse_value_fed]). *)

Inductive parsed (A : Type) : Type :=
| Ok (a : A) (rest : jsstring)
| Bad
| Starved.
Arguments Ok {A} a rest.
Arguments Bad {A}.
Arguments Starved {A}.

Definition keyword (w : string) (v : json) (s : jsstring) : parsed json :=
  match strip_prefix (lit w) s with
  | Some rest => Ok v rest
  | None => Bad
  end.

Fixpoint parse_value (fuel : nat) (s : jsstring) : parsed json :=
  match fuel with
  | O => Starved
  | S fuel =>
      match skip_ws s with
      | [] => Bad
      | c :: r =>
          if c =? 0x7B then
            match skip_ws r with
            | [] => Bad
            | c' :: r' =>
                if c' =? 0x7D then Ok (JObject []) r'
                else
                  match parse_members fuel r with
                  | Ok ms rest => Ok (object_of_members ms) rest
                  | Bad => Bad
                  | Starved => Starved
                  end
            end
          else if c =? 0x5B then
            match skip_ws r with
            | [] => Bad
            | c' :: r' =>
                if c' =? 0x5D then Ok (JArray []) r'
                else
                  match parse_elements fuel r with
                  | Ok vs rest => Ok (JArray vs) rest
                  | Bad => Bad
                  | Starved => Starved
                  end
            end
          else if c =? 0x22 then
            match scan_chars r with
            | Some (str, rest) => Ok (JString str) rest
            | None => Bad
            end
          else if c =? 0x74 then keyword "true" (JBool true) (c :: r)
          else if c =? 0x66 then keyword "false" (JBool false) (c :: r)
          else if c =? 0x6E then keyword "null" JNull (c :: r)
          else
            match scan_number (c :: r) with
            | Some (n, rest) => Ok (JNumber n) rest
            | None => Bad
            end
      end
  end

(** [value (, value)* ]] *)
with parse_elements (fuel : nat) (s : jsstring) : parsed (list json) :=
  match fuel with
  | O => Starved
  | S fuel =>
      match parse_value fuel s with
      | Ok v rest =>
          match skip_ws rest with
          | [] => Bad
          | c :: r =>
              if c =? 0x2C then
                match parse_elements fuel r with
                | Ok vs rest' => Ok (v :: vs) rest'
                | Bad => Bad
                | Starved => Starved
                end
              else if c =? 0x5D then Ok [v] r
              else Bad
          end
      | Bad => Bad
      | Starved => Starved
      end
  end

(** [string : value (, string : value)* }] *)
with parse_members (fuel : nat) (s : jsstring)
  : parsed (list (jsstring * json)) :=
  match fuel with
  | O => Starved
  | S fuel =>
      match skip_ws s with
      | [] => Bad
      | q :: r0 =>
          if q =? 0x22 then
            match scan_chars r0 with
            | None => Bad
            | Some (k, r1) =>
                match skip_ws r1 with
                | [] => Bad
                | colon :: r2 =>
                    if colon =? 0x3A then
                      match parse_value fuel r2 with
                      | Ok v rest =>
                          match skip_ws rest with
                          | [] => Bad
                          | c :: r =>
                              if c =? 0x2C then
                                match parse_members fuel r with
                                | Ok ms rest' => Ok ((k, v) :: ms) rest'
                                | Bad => Bad
                                | Starved => Starved
                                end
                              else if c =? 0x7D then Ok [(k, v)] r
                              else Bad
                          end
                      | Bad => Bad
                      | Starved => Starved
                      end
                    else Bad
                end
            end
          else Bad
      end
  end.

(** [JSON.parse(text)]: [None] is the SyntaxError it throws. *)
Definition parse (text : jsstring) : option json :=
  match parse_value (2 * length text + 2)%nat text with
  | Ok v rest => match skip_ws rest with [] => Some v | _ :: _ => None end
  | Bad => None
  | Starved => None
  end.

End JSON.

Module Stringify.

(** *** [JSON.stringify]

    QuoteJSONString: the quote, the backslash and the control characters
    are escaped, a surrogate code unit that is not half of a pair is
    written as a lower-case [\u] escape, everything else is copied. *)

Definition hex_digit (d : N) : N :=
  if d <? 10 then 0x30 + d else 0x61 + (d - 10).

Definition unicode_escape (c : N) : jsstring :=
  [0x5C; 0x75; hex_digit (c / 4096 mod 16); hex_digit (c / 256 mod 16);
   hex_digit (c / 16 mod 16); hex_digit (c mod 16)].

Definition is_high (c : N) : bool := (0xD800 <=? c) && (c <=? 0xDBFF).
Definition is_low (c : N) : bool := (0xDC00 <=? c) && (c <=? 0xDFFF).

Definition quote_unit (c : N) : jsstring :=
  if c =? 0x08 then [0x5C; 0x62]
  else if c =? 0x09 then [0x5C; 0x74]
  else if c =? 0x0A then [0x5C; 0x6E]
  else if c =? 0x0C then [0x5C; 0x66]
  else if c =? 0x0D then [0x5C; 0x72]
  else if c =? 0x22 then [0x5C; 0x22]
  else if c =? 0x5C then [0x5C; 0x5C]
  else if c <? 0x20 then unicode_escape c
  else [c].

Fixpoint quote_chars (s : jsstring) : jsstring :=
  match s with
  | [] => []
  | c :: r =>
      if is_high c then
        match r with
        | d :: r' =>
            if is_low d then c :: d :: quote_chars r'
            else unicode_escape c ++ quote_chars r
        | [] => unicode_escape c
        end
      else if is_low c then unicode_escape c ++ quote_chars r
      else quote_unit c ++ quote_chars r
  end.

Definition quote (s : jsstring) : jsstring :=
  0x22 :: quote_chars s ++ [0x22].

Fixpoint join_comma (parts : list jsstring) : jsstring :=
  match parts with
  | [] => []
  | [p] => p
  | p :: ps => p ++ 0x2C :: join_comma ps
  end.

(** [JSON.stringify(v)] with no replacer and no indentation. *)
Fixpoint stringify (v : json) : jsstring :=
  match v with
  | JNull => lit "null"
  | JBool true => lit "true"
  | JBool false => lit "false"
  | JNumber n => n
  | JString s => quote s
  | JArray items => 0x5B :: join_comma (map stringify items) ++ [0x5D]
  | JObject members =>
      0x7B :: join_comma
                (map (fun kv => quote (fst kv) ++ 0x3A :: stringify (snd kv))
                   members) ++ [0x7D]
  end.

End Stringify.

(** ** The data model of [App.tsx] *)

Module Resource.
Record t : Type := { title : jsstring; url : jsstring }.
End Resource.

Module RoadmapStep.
Record t : Type := {
  title : jsstring;
  description : jsstring;
  resources : list Resource.t;
  timeframe : jsstring;
  skills : list jsstring
}.
End RoadmapStep.

Module UserPreferences.
Record t : Type := {
  goal : jsstring;
  timeframe : jsstring;
  experience : jsstring;
  dedication : jsstring
}.
End UserPreferences.

(** [steps] holds what [setRoadmap] was given.  The type annotation
    [RoadmapStep[]] is erased at run time and [generateRoadmap] stores the
    array returned by [JSON.parse] as it is, so the elements are JSON
    values. *)
Module SavedRoadmap.
Record t : Type := {
  preferences : UserPreferences.t;
  steps : list json;
  createdAt : jsstring
}.
End SavedRoadmap.

(** *** Typed values as JSON objects, and back *)

Definition json_of_preferences (p : UserPreferences.t) : json :=
  JObject [ (lit "goal", JString (UserPreferences.goal p));
            (lit "timeframe", JString (UserPreferences.timeframe p));
            (lit "experience", JString (UserPreferences.experience p));
            (lit "dedication", JString (UserPreferences.dedication p)) ].

Definition json_of_saved (r : SavedRoadmap.t) : json :=
  JObject [ (lit "preferences", json_of_preferences (SavedRoadmap.preferences r));
            (lit "steps", JArray (SavedRoadmap.steps r));
            (lit "createdAt", JString (SavedRoadmap.createdAt r)) ].

Definition string_field (k : string) (o : list (jsstring * json))
  : option jsstring :=
  match JSON.get (lit k) o with
  | Some (JString s) => Some s
  | _ => None
  end.

Definition array_field (k : string) (o : list (jsstring * json))
  : option (list json) :=
  match JSON.get (lit k) o with
  | Some (JArray l) => Some l
  | _ => None
  end.


Definition preferences_of_json (v : json) : option UserPreferences.t :=
  match v with
  | JObject o =>
      g ← string_field "goal" o;
      t ← string_field "timeframe" o;
      e ← string_field "experience" o;
      d ← string_field "dedication" o;
      Some {| UserPreferences.goal := g; UserPreferences.timeframe := t;
              UserPreferences.experience := e; UserPreferences.dedication := d |}
  | _ => None
  end.




Definition saved_of_json (v : json) : option SavedRoadmap.t :=
  match v with
  | JObject o =>
      pv ← JSON.get (lit "preferences") o;
      p ← preferences_of_json pv;
      st ← array_field "steps" o;
      c ← string_field "createdAt" o;
      Some {| SavedRoadmap.preferences := p; SavedRoadmap.steps := st;
              SavedRoadmap.createdAt := c |}
  | _ => None
  end.

(** ** The session: the component's state cells and its environment *)

(** What the [catch] clause of [generateRoadmap] can catch. *)
Inductive Exn : Type :=
| InvalidResponseFormat            (* [new Error('Invalid response format')] *)
| JsonSyntaxError                  (* thrown by [JSON.parse] *)
| RemoteError (reason : jsstring). (* the SDK call rejected or threw *)

(** The eight [useState] cells of [App], the origin's [localStorage] and
    the errors written with [console.error]. *)
Record Session : Type := {
  preferences : UserPreferences.t;
  loading : bool;
  roadmap : list json;
  error : jsstring;
  apiKey : jsstring;
  showApiInput : bool;
  isDarkMode : bool;
  savedRoadmaps : list SavedRoadmap.t;
  localStorage : gmap string jsstring;
  console : list Exn
}.

Definition setPreferences (p : UserPreferences.t) (s : Session) : Session :=
  {| preferences := p; loading := loading s; roadmap := roadmap s;
     error := error s; apiKey := apiKey s; showApiInput := showApiInput s;
     isDarkMode := isDarkMode s; savedRoadmaps := savedRoadmaps s;
     localStorage := localStorage s; console := console s |}.

Definition setLoading (b : bool) (s : Session) : Session :=
  {| preferences := preferences s; loading := b; roadmap := roadmap s;
     error := error s; apiKey := apiKey s; showApiInput := showApiInput s;
     isDarkMode := isDarkMode s; savedRoadmaps := savedRoadmaps s;
     localStorage := localStorage s; console := console s |}.

Definition setRoadmap (r : list json) (s : Session) : Session :=
  {| preferences := preferences s; loading := loading s; roadmap := r;
     error := error s; apiKey := apiKey s; showApiInput := showApiInput s;
     isDarkMode := isDarkMode s; savedRoadmaps := savedRoadmaps s;
     localStorage := localStorage s; console := console s |}.

Definition setError (e : jsstring) (s : Session) : Session :=
  {| preferences := preferences s; loading := loading s; roadmap := roadmap s;
     error := e; apiKey := apiKey s; showApiInput := showApiInput s;
     isDarkMode := isDarkMode s; savedRoadmaps := savedRoadmaps s;
     localStorage := localStorage s; console := console s |}.

Definition setSavedRoadmaps (l : list SavedRoadmap.t) (s : Session) : Session :=
  {| preferences := preferences s; loading := loading s; roadmap := roadmap s;
     error := error s; apiKey := apiKey s; showApiInput := showApiInput s;
     isDarkMode := isDarkMode s; savedRoadmaps := l;
     localStorage := localStorage s; console := console s |}.

(** [localStorage.setItem(key, value)]; the store is taken to have room. *)
Definition setItem (key : string) (value : jsstring) (s : Session) : Session :=
  {| preferences := preferences s; loading := loading s; roadmap := roadmap s;
     error := error s; apiKey := apiKey s; showApiInput := showApiInput s;
     isDarkMode := isDarkMode s; savedRoadmaps := savedRoadmaps s;
     localStorage := <[key := value]> (localStorage s); console := console s |}.

Definition console_error (e : Exn) (s : Session) : Session :=
  {| preferences := preferences s; loading := loading s; roadmap := roadmap s;
     error := error s; apiKey := apiKey s; showApiInput := showApiInput s;
     isDarkMode := isDarkMode s; savedRoadmaps := savedRoadmaps s;
     localStorage := localStorage s; console := console s ++ [e] |}.

(** *** The state initialisers (lines 30-49)

    [None] stands for a start that does not produce a typed state: the
    stored text makes [JSON.parse] throw, or it is not a value this program
    writes under that key. *)

Definition defaultPreferences : UserPreferences.t :=
  {| UserPreferences.goal := lit "";
     UserPreferences.timeframe := lit "6 months";
     UserPreferences.experience := lit "beginner";
     UserPreferences.dedication := lit "10 hours/week" |}.

Definition init_preferences (store : gmap string jsstring)
  : option UserPreferences.t :=
  match store !! "lastPreferences"%string with
  | Some saved =>
      if JS.truthy saved then v ← JSON.parse saved; preferences_of_json v
      else Some defaultPreferences
  | None => Some defaultPreferences
  end.

Definition init_apiKey (store : gmap string jsstring) : jsstring :=
  match store !! "geminiApiKey"%string with
  | Some k => if JS.truthy k then k else lit ""
  | None => lit ""
  end.

Definition init_showApiInput (store : gmap string jsstring) : bool :=
  match store !! "geminiApiKey"%string with
  | Some k => negb (JS.truthy k)
  | None => true
  end.

Definition init_savedRoadmaps (store : gmap string jsstring)
  : option (list SavedRoadmap.t) :=
  match store !! "savedRoadmaps"%string with
  | Some saved =>
      if JS.truthy saved then
        v ← JSON.parse saved;
        match v with
        | JArray items => mapM saved_of_json items
        | _ => None
        end
      else Some []
  | None => Some []
  end.

(** The first render: [dark] tells whether the document element carries
    the class [dark]. *)
Definition App_init (store : gmap string jsstring) (dark : bool)
  : option Session :=
  p ← init_preferences store;
  saved ← init_savedRoadmaps store;
  Some {| preferences := p; loading := false; roadmap := [];
          error := lit ""; apiKey := init_apiKey store;
          showApiInput := init_showApiInput store; isDarkMode := dark;
          savedRoadmaps := saved; localStorage := store; console := [] |}.

(** *** [generatePrompt] (lines 63-76) *)

Definition NL : jsstring := [0x0A].

Definition generatePrompt (prefs : UserPreferences.t) : jsstring :=
  lit "Create a detailed learning roadmap for someone who wants to "
  ++ UserPreferences.goal prefs ++ lit ". " ++ NL
  ++ lit "    They have " ++ UserPreferences.experience prefs
  ++ lit " experience level and can dedicate "
  ++ UserPreferences.dedication prefs ++ lit " to learning. " ++ NL
  ++ lit "    They want to achieve their goal in "
  ++ UserPreferences.timeframe prefs ++ lit "." ++ NL
  ++ lit "    " ++ NL
  ++ lit "    Format the response as a JSON array with exactly 3-4 steps. Each step should have:" ++ NL
  ++ lit "    - title: short name for the phase" ++ NL
  ++ lit "    - description: detailed explanation" ++ NL
  ++ lit "    - resources: array of objects with {title: string, url: string} for specific learning resources with real, working URLs" ++ NL
  ++ lit "    - timeframe: estimated time for this step" ++ NL
  ++ lit "    - skills: array of key skills to master" ++ NL
  ++ lit "    " ++ NL
  ++ lit "    Make it realistic and actionable within their timeframe. Ensure all resource URLs are real and accessible.".

(** *** [saveRoadmap] (lines 78-90)

    [now] is the value of [new Date().toISOString()] when the handler
    runs. *)
Definition saveRoadmap (now : jsstring) (s : Session) : Session :=
  if (length (roadmap s) =? 0)%nat then s
  else
    let newSavedRoadmap :=
      {| SavedRoadmap.preferences := preferences s;
         SavedRoadmap.steps := roadmap s;
         SavedRoadmap.createdAt := now |} in
    let updatedRoadmaps := savedRoadmaps s ++ [newSavedRoadmap] in
    setItem "savedRoadmaps"
      (Stringify.stringify (JArray (map json_of_saved updatedRoadmaps)))
      (setSavedRoadmaps updatedRoadmaps s).

(** *** [loadRoadmap] (lines 92-95) *)
Definition loadRoadmap (saved : SavedRoadmap.t) (s : Session) : Session :=
  setRoadmap (SavedRoadmap.steps saved)
    (setPreferences (SavedRoadmap.preferences saved) s).

(** *** [generateRoadmap] (lines 97-137)

    The handler runs up to its first [await], where the remote call is
    made, and is resumed with the outcome of that call.  The values of
    [apiKey] and [preferences] it uses after the [await] are those of the
    render in which it was started. *)

Record Request : Type := {
  credential : jsstring;
  model : jsstring;
  prompt : jsstring
}.

Inductive Response : Type :=
| Rejected (reason : jsstring)   (* the call, or [response.text()], throws *)
| Text (text : jsstring).

Record Closure : Type := {
  captured_apiKey : jsstring;
  captured_preferences : UserPreferences.t
}.

Definition request_of (k : Closure) : Request :=
  {| credential := captured_apiKey k;
     model := lit "gemini-2.0-flash";
     prompt := generatePrompt (captured_preferences k) |}.

(** Either the handler has returned, or it is suspended on the remote
    call. *)
Inductive Progress : Type :=
| Returned (s : Session)
| Awaiting (s : Session) (k : Closure).

Definition MSG_NO_KEY : jsstring := lit "Please enter your Gemini API key".
Definition MSG_NO_GOAL : jsstring := lit "Please enter your learning goal".
Definition MSG_FAILED : jsstring :=
  lit "Failed to generate roadmap. Please check your API key and try again.".

(** What the handler closes over when it is started. *)
Definition capture (s : Session) : Closure :=
  {| captured_apiKey := apiKey s; captured_preferences := preferences s |}.

(** Lines 97-116. *)
Definition generateRoadmap_begin (s : Session) : Progress :=
  if negb (JS.truthy (JS.trim (apiKey s))) then
    Returned (setError MSG_NO_KEY s)
  else if negb (JS.truthy (JS.trim (UserPreferences.goal (preferences s)))) then
    Returned (setError MSG_NO_GOAL s)
  else
    Awaiting (setLoading true (setError (lit "") s)) (capture s).

(** Lines 120-125: the value handed to [setRoadmap], or the exception
    thrown.  The matched text starts with an opening bracket, so a
    successful parse yields an array ([parse_bracketed_is_array]) and the
    last case is never taken. *)
Definition parseResponse (text : jsstring) : Exn + list json :=
  match JS.match_bracketed text with
  | None => inl InvalidResponseFormat
  | Some jsonMatch =>
      match JSON.parse jsonMatch with
      | None => inl JsonSyntaxError
      | Some (JArray parsedRoadmap) => inr parsedRoadmap
      | Some _ => inl JsonSyntaxError
      end
  end.

Definition try_block (r : Response) : Exn + list json :=
  match r with
  | Rejected reason => inl (RemoteError reason)
  | Text text => parseResponse text
  end.

(** Lines 117-136, run on the session as it is when the call settles. *)
Definition generateRoadmap_resume (k : Closure) (r : Response) (s : Session)
  : Session :=
  setLoading false
    match try_block r with
    | inr parsedRoadmap =>
        setItem "geminiApiKey" (captured_apiKey k)
          (setItem "lastPreferences"
             (Stringify.stringify (json_of_preferences (captured_preferences k)))
             (setRoadmap parsedRoadmap s))
    | inl err => console_error err (setError MSG_FAILED s)
    end.

(** A whole run with no other event in between; [remote] is the
    generative-model service. *)
Definition generateRoadmap (remote : Request -> Response) (s : Session)
  : Session :=
  match generateRoadmap_begin s with
  | Returned s' => s'
  | Awaiting s' k => generateRoadmap_resume k (remote (request_of k)) s'
  end.

(** ** The vocabulary of the specification *)

(** Empty or made of white space only. *)
Definition blank (s : jsstring) : Prop :=
  Forall (fun c => JS.is_white_space c = true) s.

(** Both local checks of [generateRoadmap] let the call through. *)
Definition validation_passes (s : Session) : Prop :=
  ¬ blank (apiKey s) ∧ ¬ blank (UserPreferences.goal (preferences s)).

(** The text has a substring of the form [[...]]. *)
Definition has_bracketed (text : jsstring) : Prop :=
  ∃ pre mid post, text = pre ++ JS.OPEN :: mid ++ JS.CLOSE :: post.

Definition is_parse_error (e : Exn) : Prop :=
  e = InvalidResponseFormat ∨ e = JsonSyntaxError.

(** The run took the [catch] clause with a parse error: the generic
    message is shown, the error is logged, the roadmap is the one held
    before, and the session is idle again. *)
Definition fails_with_parse_error (s s' : Session) : Prop :=
  error s' = MSG_FAILED
  ∧ (∃ e, is_parse_error e ∧ console s' = console s ++ [e])
  ∧ roadmap s' = roadmap s
  ∧ loading s' = false.


(** The remote call is made and the [try] block completes. *)
Definition generation_succeeds (remote : Request -> Response) (s : Session)
  : Prop :=
  ∃ s1 k parsedRoadmap,
    generateRoadmap_begin s = Awaiting s1 k
    ∧ try_block (remote (request_of k)) = inr parsedRoadmap.








(** *** Auxiliary notions for the parser *)

(** What a parsing function may return when it is given [s]: a syntax
    error, or a value and a strictly shorter rest; never [Starved]. *)
Definition fed {A} (s : jsstring) (r : JSON.parsed A) : Prop :=
  match r with
  | JSON.Ok _ rest => (length rest < length s)%nat
  | JSON.Bad => True
  | JSON.Starved => False
  end.

(** A scanned character in front of what the rest scans to. *)
Definition push (c : N) (r : option (jsstring * jsstring))
  : option (jsstring * jsstring) :=
  match r with
  | Some (t, rest) => Some (c :: t, rest)
  | None => None
  end.

(** The two statements of the specification that the handler does not
    meet as they are worded, each at one session and one response text. *)



(** *** Sample data *)

Definition rust_preferences : UserPreferences.t :=
  {| UserPreferences.goal := lit "learn Rust";
     UserPreferences.timeframe := lit "6 months";
     UserPreferences.experience := lit "beginner";
     UserPreferences.dedication := lit "10 hours/week" |}.

(** A session with a credential and a goal, showing an error left by an
    earlier attempt. *)
Definition ready_session : Session :=
  {| preferences := rust_preferences; loading := false; roadmap := [];
     error := MSG_FAILED; apiKey := lit "AIzaSy-sample"; showApiInput := false;
     isDarkMode := false; savedRoadmaps := []; localStorage := ∅;
     console := [] |}.

Definition one_step_text : jsstring :=
  litq "[{'title':'Basics','description':'Read the book','resources':[{'title':'The Book','url':'https://doc.rust-lang.org/book/'}],'timeframe':'2 weeks','skills':['ownership']}]".

Definition one_step : list json :=
  [ JObject
      [ (lit "title", JString (lit "Basics"));
        (lit "description", JString (lit "Read the book"));
        (lit "resources",
          JArray [ JObject [ (lit "title", JString (lit "The Book"));
                             (lit "url", JString (lit "https://doc.rust-lang.org/book/")) ] ]);
        (lit "timeframe", JString (lit "2 weeks"));
        (lit "skills", JArray [ JString (lit "ownership") ]) ] ].

(** The same session, holding a roadmap from an earlier run. *)
Definition held_session : Session := setRoadmap one_step ready_session.

(** A session whose credential field holds two spaces. *)
Definition keyless_session : Session :=
  {| preferences := rust_preferences; loading := false; roadmap := one_step;
     error := lit ""; apiKey := lit "  "; showApiInput := true;
     isDarkMode := false; savedRoadmaps := []; localStorage := ∅;
     console := [] |}.



Definition wrapped_text : jsstring :=
  lit "Here is your plan: " ++ one_step_text ++ lit " Good luck!".

(** ** The rest of the component: the remaining handlers and the page *)

Definition setApiKey (k : jsstring) (s : Session) : Session :=
  {| preferences := preferences s; loading := loading s; roadmap := roadmap s;
     error := error s; apiKey := k; showApiInput := showApiInput s;
     isDarkMode := isDarkMode s; savedRoadmaps := savedRoadmaps s;
     localStorage := localStorage s; console := console s |}.

Definition setShowApiInput (b : bool) (s : Session) : Session :=
  {| preferences := preferences s; loading := loading s; roadmap := roadmap s;
     error := error s; apiKey := apiKey s; showApiInput := b;
     isDarkMode := isDarkMode s; savedRoadmaps := savedRoadmaps s;
     localStorage := localStorage s; console := console s |}.

Definition setIsDarkMode (b : bool) (s : Session) : Session :=
  {| preferences := preferences s; loading := loading s; roadmap := roadmap s;
     error := error s; apiKey := apiKey s; showApiInput := showApiInput s;
     isDarkMode := b; savedRoadmaps := savedRoadmaps s;
     localStorage := localStorage s; console := console s |}.

(** *** [toggleDarkMode] (lines 59-61) *)
Definition toggleDarkMode (s : Session) : Session :=
  setIsDarkMode (negb (isDarkMode s)) s.

(** *** The display-mode effect (lines 51-57)

    [classList] is the token list of the document element: [add] appends a
    token that is not there, [remove] takes it out. *)
Definition classList_add (t : string) (cl : list string) : list string :=
  if bool_decide (t ∈ cl) then cl else cl ++ [t].

Definition classList_remove (t : string) (cl : list string) : list string :=
  filter (fun c => c ≠ t) cl.

Definition classList_contains (t : string) (cl : list string) : bool :=
  bool_decide (t ∈ cl).

Definition dark_effect (dark : bool) (cl : list string) : list string :=
  if dark then classList_add "dark" cl else classList_remove "dark" cl.

(** *** The page: the session, the document's class list, the remote
    calls that have not settled, and the windows opened *)
Record Page : Type := {
  session : Session;
  classList : list string;
  inflight : list Closure;
  windows : list jsstring
}.

Definition with_session (s : Session) (p : Page) : Page :=
  {| session := s; classList := classList p; inflight := inflight p;
     windows := windows p |}.

(** The first render and its effect (lines 30-57). *)
Definition mount (store : gmap string jsstring) (cl : list string)
  : option Page :=
  s ← App_init store (classList_contains "dark" cl);
  Some {| session := s; classList := dark_effect (isDarkMode s) cl;
          inflight := []; windows := [] |}.

(** *** [openGeminiConsole] (lines 139-141) *)
Definition CONSOLE_URL : jsstring := lit "https://makersuite.google.com/app/apikey".

Definition openGeminiConsole (p : Page) : Page :=
  {| session := session p; classList := classList p; inflight := inflight p;
     windows := windows p ++ [CONSOLE_URL] |}.

(** *** The inline handlers of the form: [{ ...preferences, field: value }] *)
Definition with_goal (v : jsstring) (p : UserPreferences.t) : UserPreferences.t :=
  {| UserPreferences.goal := v;
     UserPreferences.timeframe := UserPreferences.timeframe p;
     UserPreferences.experience := UserPreferences.experience p;
     UserPreferences.dedication := UserPreferences.dedication p |}.

Definition with_timeframe (v : jsstring) (p : UserPreferences.t) : UserPreferences.t :=
  {| UserPreferences.goal := UserPreferences.goal p;
     UserPreferences.timeframe := v;
     UserPreferences.experience := UserPreferences.experience p;
     UserPreferences.dedication := UserPreferences.dedication p |}.

Definition with_experience (v : jsstring) (p : UserPreferences.t) : UserPreferences.t :=
  {| UserPreferences.goal := UserPreferences.goal p;
     UserPreferences.timeframe := UserPreferences.timeframe p;
     UserPreferences.experience := v;
     UserPreferences.dedication := UserPreferences.dedication p |}.

Definition with_dedication (v : jsstring) (p : UserPreferences.t) : UserPreferences.t :=
  {| UserPreferences.goal := UserPreferences.goal p;
     UserPreferences.timeframe := UserPreferences.timeframe p;
     UserPreferences.experience := UserPreferences.experience p;
     UserPreferences.dedication := v |}.

(** The values of the three [select] elements. *)
Definition TIMEFRAMES : list jsstring :=
  [lit "3 months"; lit "6 months"; lit "1 year"; lit "2 years"].
Definition EXPERIENCES : list jsstring :=
  [lit "beginner"; lit "intermediate"; lit "advanced"].
Definition DEDICATIONS : list jsstring :=
  [lit "5 hours/week"; lit "10 hours/week"; lit "20 hours/week"; lit "40 hours/week"].

(** *** What the user and the remote service can do to the page

    One constructor for each control of the rendered tree (lines 143-412),
    and one for a remote call that settles. *)
Inductive Event : Type :=
| TypeApiKey (v : jsstring)        (* line 179: [setApiKey(e.target.value)] *)
| ClickGetApiKey                   (* line 185: [openGeminiConsole] *)
| ClickContinue                    (* line 191: [setShowApiInput(false)] *)
| TypeGoal (v : jsstring)          (* line 209 *)
| SelectTimeframe (v : jsstring)   (* line 222 *)
| SelectExperience (v : jsstring)  (* line 238 *)
| SelectDedication (v : jsstring)  (* line 253 *)
| ClickGenerate                    (* line 266: [generateRoadmap] *)
| ClickApiKey                      (* line 283: [setShowApiInput(true)] *)
| ClickSave (now : jsstring)       (* line 303: [saveRoadmap], at time [now] *)
| ClickLoad (i : nat)              (* line 399: [loadRoadmap(saved)], entry [i] *)
| ClickToggle                      (* line 148: [toggleDarkMode] *)
| Settle (i : nat) (r : Response). (* call [i] in flight settles with [r] *)

(** The control is rendered and not disabled: the credential form is
    the branch [showApiInput] of line 168 and the preferences form the
    other; [Continue] is disabled on a blank credential (line 192) and
    [Generate] on a blank goal or a busy session (line 267); the Save
    button is rendered with the roadmap (line 299) and a Load button with
    each saved entry (line 387). *)
Definition enabled (e : Event) (p : Page) : bool :=
  let s := session p in
  match e with
  | TypeApiKey _ => showApiInput s
  | ClickGetApiKey => showApiInput s
  | ClickContinue =>
      showApiInput s && negb (negb (JS.truthy (JS.trim (apiKey s))))
  | TypeGoal _ => negb (showApiInput s)
  | SelectTimeframe v => negb (showApiInput s) && bool_decide (v ∈ TIMEFRAMES)
  | SelectExperience v => negb (showApiInput s) && bool_decide (v ∈ EXPERIENCES)
  | SelectDedication v => negb (showApiInput s) && bool_decide (v ∈ DEDICATIONS)
  | ClickGenerate =>
      negb (showApiInput s)
      && negb (negb (JS.truthy (JS.trim (UserPreferences.goal (preferences s))))
               || loading s)
  | ClickApiKey => negb (showApiInput s)
  | ClickSave _ => (0 <? length (roadmap s))%nat && negb (loading s)
  | ClickLoad i => bool_decide (is_Some (savedRoadmaps s !! i))
  | ClickToggle => true
  | Settle i _ => bool_decide (is_Some (inflight p !! i))
  end.

(** The handler of the control, and the effect of the render that
    follows. *)
Definition fire (e : Event) (p : Page) : Page :=
  let s := session p in
  match e with
  | TypeApiKey v => with_session (setApiKey v s) p
  | ClickGetApiKey => openGeminiConsole p
  | ClickContinue => with_session (setShowApiInput false s) p
  | TypeGoal v => with_session (setPreferences (with_goal v (preferences s)) s) p
  | SelectTimeframe v =>
      with_session (setPreferences (with_timeframe v (preferences s)) s) p
  | SelectExperience v =>
      with_session (setPreferences (with_experience v (preferences s)) s) p
  | SelectDedication v =>
      with_session (setPreferences (with_dedication v (preferences s)) s) p
  | ClickGenerate =>
      match generateRoadmap_begin s with
      | Returned s' => with_session s' p
      | Awaiting s' k =>
          {| session := s'; classList := classList p;
             inflight := inflight p ++ [k]; windows := windows p |}
      end
  | ClickApiKey => with_session (setShowApiInput true s) p
  | ClickSave now => with_session (saveRoadmap now s) p
  | ClickLoad i =>
      match savedRoadmaps s !! i with
      | Some saved => with_session (loadRoadmap saved s) p
      | None => p
      end
  | ClickToggle =>
      let s' := toggleDarkMode s in
      {| session := s'; classList := dark_effect (isDarkMode s') (classList p);
         inflight := inflight p; windows := windows p |}
  | Settle i r =>
      match inflight p !! i with
      | Some k =>
          {| session := generateRoadmap_resume k r s; classList := classList p;
             inflight := delete i (inflight p); windows := windows p |}
      | None => p
      end
  end.

(** A sequence of events, each one possible when it happens. *)
Fixpoint run (es : list Event) (p : Page) : option Page :=
  match es with
  | [] => Some p
  | e :: es' => if enabled e p then run es' (fire e p) else None
  end.

(** The keys of the store that the component uses. *)
Definition APP_KEYS : list string :=
  ["lastPreferences"; "geminiApiKey"; "savedRoadmaps"]%string.

(** The key is missing from the store, or holds the empty string. *)
Definition unset (store : gmap string jsstring) (key : string) : Prop :=
  store !! key = None ∨ store !! key = Some [].

(** *** Values that go through the store unchanged

    [JSON.stringify] followed by [JSON.parse] gives back a value that holds
    no number and whose objects have their keys in property order.  (A
    number need not come back: [1e999] parses to [Infinity], which is
    written as [null].) *)

Fixpoint number_free (v : json) : bool :=
  match v with
  | JNumber _ => false
  | JArray items => forallb number_free items
  | JObject members => forallb (fun kv => number_free (snd kv)) members
  | _ => true
  end.

(** [k1] may stand before [k2] among the keys of an object: array indices
    first and ascending, then the other keys, no key twice. *)
Definition key_before (k1 k2 : jsstring) : bool :=
  match JSON.array_index k1, JSON.array_index k2 with
  | Some a, Some b => a <? b
  | Some _, None => true
  | None, Some _ => false
  | None, None => negb (JSON.key_eqb k1 k2)
  end.

Fixpoint keys_in_order (ks : list jsstring) : bool :=
  match ks with
  | [] => true
  | k :: r => forallb (key_before k) r && keys_in_order r
  end.

Fixpoint ordered (v : json) : bool :=
  match v with
  | JArray items => forallb ordered items
  | JObject members =>
      keys_in_order (map fst members)
      && forallb (fun kv => ordered (snd kv)) members
  | _ => true
  end.

Definition storable (v : json) : bool := number_free v && ordered v.

(** Every step of the roadmap, and every step of every saved entry. *)
Definition storable_steps (l : list json) : Prop :=
  Forall (fun v => storable v = true) l.

Definition storable_saved (l : list SavedRoadmap.t) : Prop :=
  Forall (fun r => storable_steps (SavedRoadmap.steps r)) l.

(** The number of nodes of a value, and of a list of values. *)
Fixpoint size (v : json) : nat :=
  match v with
  | JArray items => S (list_sum (map (fun x => S (size x)) items))
  | JObject members => S (list_sum (map (fun kv => S (size (snd kv))) members))
  | _ => 1%nat
  end.

(** The text of one member of an object. *)
Definition member_text (kv : jsstring * json) : jsstring :=
  Stringify.quote (fst kv) ++ 0x3A :: Stringify.stringify (snd kv).

(** The characters that open the text of a value without numbers: those of
    the literals, the quote, the bracket and the brace. *)
Definition opener (c : N) : Prop :=
  c = 0x6E ∨ c = 0x74 ∨ c = 0x66 ∨ c = 0x22 ∨ c = 0x5B ∨ c = 0x7B.

(** *** Invariants of the page *)

(** The busy flag is on exactly when a call is in flight, and at most one
    call is. *)
Definition busy_inv (p : Page) : Prop :=
  (length (inflight p) <= 1)%nat
  ∧ (loading (session p) = true ↔ inflight p ≠ []).

(** When the preferences form is shown the credential is not blank, and
    the error message is empty or the generic one. *)
Definition form_inv (p : Page) : Prop :=
  (showApiInput (session p) = false → ¬ blank (apiKey (session p)))
  ∧ (error (session p) = [] ∨ error (session p) = MSG_FAILED).

(** The credential in the store, if any, is empty or not blank: what the
    component itself writes there. *)
Definition stored_key_usable (store : gmap string jsstring) : Prop :=
  ∀ k, store !! "geminiApiKey"%string = Some k → k = [] ∨ ¬ blank k.

Definition is_save (e : Event) : bool :=
  match e with ClickSave _ => true | _ => false end.

Definition is_settle (e : Event) : bool :=
  match e with Settle _ _ => true | _ => false end.

(** The number of clicks on Save among the events. *)
Fixpoint saves (es : list Event) : nat :=
  match es with
  | [] => 0
  | e :: es' => ((if is_save e then 1 else 0) + saves es')%nat
  end.

(** The class list and the display mode agree, and the other classes are
    those of [cl]. *)
Definition dark_inv (cl : list string) (p : Page) : Prop :=
  classList_contains "dark" (classList p) = isDarkMode (session p)
  ∧ ∀ t : string, t ≠ "dark"%string → (t ∈ classList p ↔ t ∈ cl).





(** One call is in flight, started with the closure [k]. *)
Definition awaiting (k : Closure) (p : Page) : Prop :=
  inflight p = [k] ∧ loading (session p) = true.

(** *** More sample data *)

(** A store whose credential was cleared. *)
Definition cleared_store : gmap string jsstring :=
  <["geminiApiKey"%string := []]> ∅.

(** A store whose saved list was cut short. *)
Definition corrupt_store : gmap string jsstring :=
  <["savedRoadmaps"%string := lit "[{"]> ∅.

(** A first visit: the credential is typed, a goal is entered, a roadmap
    is generated and saved twice, and the first saved entry is loaded. *)
Definition first_visit : list Event :=
  [ TypeApiKey (lit "AIzaSy-sample"); ClickContinue; TypeGoal (lit "learn Rust");
    SelectTimeframe (lit "1 year"); ClickToggle; ClickGenerate;
    TypeGoal (lit "learn Rust well"); Settle 0 (Text wrapped_text);
    ClickSave (lit "2025-01-01T00:00:00.000Z");
    ClickSave (lit "2025-01-02T00:00:00.000Z"); ClickLoad 0 ].

(** The page of a first visit with an empty store, and what it has become
    after the events of [first_visit]. *)
Definition fresh_page : Page :=
  {| session :=
       {| preferences := defaultPreferences; loading := false; roadmap := [];
          error := []; apiKey := []; showApiInput := true; isDarkMode := false;
          savedRoadmaps := []; localStorage := ∅; console := [] |};
     classList := ["app"%string]; inflight := []; windows := [] |}.

Definition visited_page : Page :=
  from_option id fresh_page (run first_visit fresh_page).

(** The user has typed a credential and a goal; then clicks Generate, and
    goes on editing while the call is in flight. *)
Definition before_click : list Event :=
  [ TypeApiKey (lit "AIzaSy-sample"); ClickContinue; TypeGoal (lit "learn Rust") ].

Definition while_waiting : list Event :=
  [ TypeGoal (lit "learn Go"); SelectTimeframe (lit "2 years"); ClickToggle ].

Definition clicking_page : Page :=
  from_option id fresh_page (run before_click fresh_page).

Definition waiting_page : Page :=
  from_option id fresh_page (run while_waiting (fire ClickGenerate clicking_page)).

(** * Properties *)

(** ** [trim] and blank strings *)

Section Trim.

Lemma trimStart_blank (s : jsstring) : blank s → JS.trimStart s = [].
Proof.
  induction 1 as [|c r Hc _ IH]; simpl; [reflexivity|].
  now rewrite Hc.
Qed.

Lemma trimStart_nil_blank (s : jsstring) : JS.trimStart s = [] → blank s.
Proof.
  induction s as [|c r IH]; simpl; intros H; [constructor|].
  destruct (JS.is_white_space c) eqn:Hc; [|discriminate].
  constructor; [exact Hc | exact (IH H)].
Qed.

(** What [trimStart] leaves does not start with white space. *)
Lemma trimStart_head (s : jsstring) c r :
  JS.trimStart s = c :: r → JS.is_white_space c = false.
Proof.
  induction s as [|d t IH]; simpl; [discriminate|].
  destruct (JS.is_white_space d) eqn:Hd; [exact IH|].
  intros [= -> _]. exact Hd.
Qed.

Lemma blank_rev (s : jsstring) : blank (rev s) → blank s.
Proof.
  unfold blank. rewrite !Forall_forall. intros H c Hc.
  apply H. apply list_elem_of_In. apply list_elem_of_In in Hc.
  now apply in_rev in Hc.
Qed.

Lemma trim_blank (s : jsstring) : blank s → JS.trim s = [].
Proof.
  intros H. unfold JS.trim, JS.trimEnd.
  now rewrite (trimStart_blank s H).
Qed.

Lemma trim_nil_blank (s : jsstring) : JS.trim s = [] → blank s.
Proof.
  unfold JS.trim, JS.trimEnd. intros H.
  assert (Hr : JS.trimStart (rev (JS.trimStart s)) = []).
  { destruct (JS.trimStart (rev (JS.trimStart s))); [reflexivity|].
    simpl in H. now destruct (rev l). }
  apply trimStart_nil_blank, blank_rev in Hr.
  destruct (JS.trimStart s) as [|c r] eqn:Hs.
  - now apply trimStart_nil_blank.
  - apply trimStart_head in Hs. inversion Hr; congruence.
Qed.

(** The test [!s.trim()] of the handler is the test for a blank string. *)
Lemma not_truthy_trim (s : jsstring) :
  negb (JS.truthy (JS.trim s)) = true ↔ blank s.
Proof.
  split.
  - intros H. apply trim_nil_blank.
    destruct (JS.trim s); [reflexivity | discriminate].
  - intros H. now rewrite (trim_blank s H).
Qed.

Lemma truthy_trim (s : jsstring) :
  ¬ blank s → negb (JS.truthy (JS.trim s)) = false.
Proof.
  intros H. destruct (negb (JS.truthy (JS.trim s))) eqn:E; [|reflexivity].
  now apply not_truthy_trim in E.
Qed.

End Trim.

(** ** The bracket pattern *)

Section Match.

Lemma greedy_none (s : jsstring) :
  JS.CLOSE ∉ s → JS.greedy_to_close s = None.
Proof.
  induction s as [|c r IH]; simpl; intros H; [reflexivity|].
  rewrite IH by set_solver.
  destruct (N.eqb_spec c JS.CLOSE) as [->|_]; [set_solver | reflexivity].
Qed.

Lemma greedy_some_close (s m : jsstring) :
  JS.greedy_to_close s = Some m → ∃ x y, s = x ++ JS.CLOSE :: y.
Proof.
  revert m. induction s as [|c r IH]; simpl; intros m; [discriminate|].
  destruct (JS.greedy_to_close r) as [m'|].
  - destruct (IH m' eq_refl) as (x & y & ->). intros _.
    now exists (c :: x), y.
  - destruct (N.eqb_spec c JS.CLOSE) as [->|_]; [|discriminate].
    intros _. now exists [], r.
Qed.

(** The star takes everything up to the last closing bracket. *)
Lemma greedy_last_close (x post : jsstring) :
  JS.CLOSE ∉ post →
  JS.greedy_to_close (x ++ JS.CLOSE :: post) = Some (x ++ [JS.CLOSE]).
Proof.
  intros H. induction x as [|c x IH]; simpl.
  - now rewrite (greedy_none post H).
  - now rewrite IH.
Qed.

Lemma match_skips (pre rest : jsstring) :
  JS.OPEN ∉ pre → JS.match_bracketed (pre ++ rest) = JS.match_bracketed rest.
Proof.
  induction pre as [|c pre IH]; intros H; [reflexivity|].
  cbn [app JS.match_bracketed].
  destruct (N.eqb_spec c JS.OPEN) as [->|_]; [set_solver|].
  apply IH. set_solver.
Qed.

(** The match is the text from the first opening bracket to the last
    closing bracket. *)
Lemma match_first_to_last (pre mid post : jsstring) :
  JS.OPEN ∉ pre → JS.CLOSE ∉ post →
  JS.match_bracketed (pre ++ (JS.OPEN :: mid ++ [JS.CLOSE]) ++ post)
  = Some (JS.OPEN :: mid ++ [JS.CLOSE]).
Proof.
  intros Hpre Hpost. rewrite match_skips by assumption.
  cbn [app JS.match_bracketed]. rewrite N.eqb_refl.
  rewrite <- app_assoc. cbn [app].
  now rewrite greedy_last_close.
Qed.

Lemma match_none (text : jsstring) :
  ¬ has_bracketed text → JS.match_bracketed text = None.
Proof.
  induction text as [|c r IH]; simpl; intros H; [reflexivity|].
  assert (Hr : JS.match_bracketed r = None).
  { apply IH. intros (pre & mid & post & ->).
    apply H. now exists (c :: pre), mid, post. }
  destruct (N.eqb_spec c JS.OPEN) as [->|_]; [|exact Hr].
  destruct (JS.greedy_to_close r) as [m|] eqn:Hg; [|exact Hr].
  destruct (greedy_some_close _ _ Hg) as (x & y & ->).
  exfalso. apply H. now exists [], x, y.
Qed.

Lemma match_some_open (text m : jsstring) :
  JS.match_bracketed text = Some m → ∃ r, m = JS.OPEN :: r.
Proof.
  induction text as [|c t IH]; simpl; [discriminate|].
  destruct (N.eqb_spec c JS.OPEN) as [->|_]; [|exact IH].
  destruct (JS.greedy_to_close t) as [m'|]; [|exact IH].
  intros [= <-]. now eexists.
Qed.

End Match.

(** ** The parser always has enough fuel *)

Section Fuel.

Lemma skip_ws_length (s : jsstring) : (length (JSON.skip_ws s) <= length s)%nat.
Proof.
  induction s as [|c r IH]; simpl; [lia|].
  destruct (JSON.is_json_ws c); simpl; lia.
Qed.

Lemma skip_ws_cons (s : jsstring) c r :
  JSON.skip_ws s = c :: r → (length r < length s)%nat.
Proof.
  intros H. pose proof (skip_ws_length s) as Hl. rewrite H in Hl.
  simpl in Hl. lia.
Qed.

Lemma scan_chars_length (s t rest : jsstring) :
  JSON.scan_chars s = Some (t, rest) → (length rest < length s)%nat.
Proof.
  enough (H : ∀ n (s : jsstring), (length s < n)%nat → ∀ t rest,
             JSON.scan_chars s = Some (t, rest) → (length rest < length s)%nat)
    by exact (H (S (length s)) s (Nat.lt_succ_diag_r _) t rest).
  clear. induction n as [|n IH]; intros s Hn t rest; [lia|].
  destruct s as [|c r]; simpl; [discriminate|]. simpl in Hn.
  destruct (c =? 0x22); [intros [= _ <-]; lia|].
  destruct (c =? 0x5C).
  - destruct r as [|e r1]; [discriminate|].
    destruct (e =? 0x75).
    + destruct r1 as [|a [|b [|c' [|d r2]]]]; try discriminate.
      destruct (JSON.hex4 a b c' d); [|discriminate].
      destruct (JSON.scan_chars r2) as [[t' rest']|] eqn:E; [|discriminate].
      intros [= _ <-]. apply IH in E; simpl in *; lia.
    + destruct (JSON.unescape e); [|discriminate].
      destruct (JSON.scan_chars r1) as [[t' rest']|] eqn:E; [|discriminate].
      intros [= _ <-]. apply IH in E; simpl in *; lia.
  - destruct (c <? 0x20); [discriminate|].
    destruct (JSON.scan_chars r) as [[t' rest']|] eqn:E; [|discriminate].
    intros [= _ <-]. apply IH in E; simpl in *; lia.
Qed.

Lemma span_digits_length (s ds rest : jsstring) :
  JSON.span_digits s = (ds, rest) → (length rest <= length s)%nat.
Proof.
  revert ds rest. induction s as [|c r IH]; simpl; intros ds rest.
  - intros [= _ <-]. simpl. lia.
  - destruct (JSON.is_digit c).
    + destruct (JSON.span_digits r) as [ds' rest'] eqn:E.
      intros [= _ <-]. specialize (IH _ _ eq_refl). lia.
    + intros [= _ <-]. simpl. lia.
Qed.

Lemma scan_int_length (s i rest : jsstring) :
  JSON.scan_int s = Some (i, rest) → (length rest < length s)%nat.
Proof.
  destruct s as [|c r]; simpl; [discriminate|].
  destruct (c =? 0x30); [intros [= _ <-]; lia|].
  destruct (JSON.is_digit c); [|discriminate].
  destruct (JSON.span_digits r) as [ds rest'] eqn:E.
  intros [= _ <-]. apply span_digits_length in E. lia.
Qed.

Lemma scan_frac_length (s f rest : jsstring) :
  JSON.scan_frac s = Some (f, rest) → (length rest <= length s)%nat.
Proof.
  destruct s as [|c r]; simpl; [intros [= _ <-]; simpl; lia|].
  destruct (c =? 0x2E).
  - destruct (JSON.span_digits r) as [ds rest'] eqn:E.
    apply span_digits_length in E.
    destruct ds; [discriminate|]. intros [= _ <-]. lia.
  - intros [= _ <-]. simpl. lia.
Qed.

Lemma scan_exp_length (s e rest : jsstring) :
  JSON.scan_exp s = Some (e, rest) → (length rest <= length s)%nat.
Proof.
  destruct s as [|c r]; simpl; [intros [= _ <-]; simpl; lia|].
  destruct ((c =? 0x65) || (c =? 0x45)).
  - assert (Hsign : ∃ sign r1,
               match r with
               | g :: r' => if (g =? 0x2B) || (g =? 0x2D) then ([g], r') else ([], r)
               | [] => ([], r)
               end = (sign, r1) ∧ (length r1 <= length r)%nat).
    { destruct r as [|g r']; [now exists [], []|].
      destruct ((g =? 0x2B) || (g =? 0x2D));
        eexists _, _; (split; [reflexivity | simpl; lia]). }
    destruct Hsign as (sign & r1 & -> & Hl).
    destruct (JSON.span_digits r1) as [ds rest'] eqn:E.
    apply span_digits_length in E.
    destruct ds; [discriminate|]. intros [= _ <-]. lia.
  - intros [= _ <-]. simpl. lia.
Qed.

Lemma scan_number_length (s n rest : jsstring) :
  JSON.scan_number s = Some (n, rest) → (length rest < length s)%nat.
Proof.
  unfold JSON.scan_number.
  assert (Hm : ∃ minus s1,
             match s with
             | c :: r => if c =? 0x2D then ([c], r) else ([], s)
             | [] => ([], s)
             end = (minus, s1) ∧ (length s1 <= length s)%nat).
  { destruct s as [|c r]; [now exists [], []|].
    destruct (c =? 0x2D); eexists _, _; (split; [reflexivity | simpl; lia]). }
  destruct Hm as (minus & s1 & -> & Hl).
  destruct (JSON.scan_int s1) as [[i s2]|] eqn:Ei; [|discriminate].
  destruct (JSON.scan_frac s2) as [[f s3]|] eqn:Ef; [|discriminate].
  destruct (JSON.scan_exp s3) as [[e s4]|] eqn:Ee; [|discriminate].
  intros [= _ <-].
  apply scan_int_length in Ei. apply scan_frac_length in Ef.
  apply scan_exp_length in Ee. lia.
Qed.

Lemma strip_prefix_length (p s rest : jsstring) :
  JSON.strip_prefix p s = Some rest → (length rest + length p = length s)%nat.
Proof.
  revert s. induction p as [|a p IH]; intros [|b s]; simpl;
    try discriminate; try (intros [= <-]; simpl; lia).
  destruct (a =? b); [|discriminate].
  intros H. apply IH in H. lia.
Qed.

Lemma keyword_fed w v (s : jsstring) :
  w ≠ EmptyString → fed s (JSON.keyword w v s).
Proof.
  intros Hw. unfold JSON.keyword.
  destruct (JSON.strip_prefix (lit w) s) eqn:E; simpl; [|exact I].
  apply strip_prefix_length in E. destruct w; [congruence|]. simpl in E. lia.
Qed.

Lemma parse_fed (fuel : nat) :
  (∀ s, (2 * length s + 1 <= fuel)%nat → fed s (JSON.parse_value fuel s))
  ∧ (∀ s, (2 * length s + 2 <= fuel)%nat → fed s (JSON.parse_elements fuel s))
  ∧ (∀ s, (2 * length s + 2 <= fuel)%nat → fed s (JSON.parse_members fuel s)).
Proof.
  induction fuel as [|fuel (IHv & IHe & IHm)].
  { repeat split; intros s H; lia. }
  repeat split; intros s Hf.
  - (* parse_value *)
    cbn [JSON.parse_value].
    destruct (JSON.skip_ws s) as [|c r] eqn:Es; [exact I|].
    pose proof (skip_ws_cons _ _ _ Es) as Hr.
    destruct (c =? 0x7B).
    { destruct (JSON.skip_ws r) as [|c' r'] eqn:Er; [exact I|].
      pose proof (skip_ws_cons _ _ _ Er).
      destruct (c' =? 0x7D); [simpl; lia|].
      specialize (IHm r ltac:(lia)).
      destruct (JSON.parse_members fuel r); simpl in *; try easy; lia. }
    destruct (c =? 0x5B).
    { destruct (JSON.skip_ws r) as [|c' r'] eqn:Er; [exact I|].
      pose proof (skip_ws_cons _ _ _ Er).
      destruct (c' =? 0x5D); [simpl; lia|].
      specialize (IHe r ltac:(lia)).
      destruct (JSON.parse_elements fuel r); simpl in *; try easy; lia. }
    destruct (c =? 0x22).
    { destruct (JSON.scan_chars r) as [[str rest]|] eqn:E; [|exact I].
      apply scan_chars_length in E. simpl. lia. }
    assert (Hk : ∀ w v, w ≠ EmptyString → fed s (JSON.keyword w v (c :: r))).
    { intros w v Hw. pose proof (keyword_fed w v (c :: r) Hw) as Hk.
      destruct (JSON.keyword w v (c :: r)); simpl in *; try easy. lia. }
    destruct (c =? 0x74); [now apply Hk|].
    destruct (c =? 0x66); [now apply Hk|].
    destruct (c =? 0x6E); [now apply Hk|].
    destruct (JSON.scan_number (c :: r)) as [[n rest]|] eqn:E; [|exact I].
    apply scan_number_length in E. simpl in *. lia.
  - (* parse_elements *)
    cbn [JSON.parse_elements].
    specialize (IHv s ltac:(lia)).
    destruct (JSON.parse_value fuel s) as [v rest| |]; simpl in IHv; try easy.
    destruct (JSON.skip_ws rest) as [|c r] eqn:Er; [exact I|].
    pose proof (skip_ws_cons _ _ _ Er).
    destruct (c =? 0x2C).
    { specialize (IHe r ltac:(lia)).
      destruct (JSON.parse_elements fuel r); simpl in *; try easy; lia. }
    destruct (c =? 0x5D); simpl; [lia | exact I].
  - (* parse_members *)
    cbn [JSON.parse_members].
    destruct (JSON.skip_ws s) as [|q r0] eqn:Es; [exact I|].
    pose proof (skip_ws_cons _ _ _ Es).
    destruct (q =? 0x22); [|exact I].
    destruct (JSON.scan_chars r0) as [[k r1]|] eqn:Ek; [|exact I].
    apply scan_chars_length in Ek.
    destruct (JSON.skip_ws r1) as [|colon r2] eqn:E1; [exact I|].
    pose proof (skip_ws_cons _ _ _ E1).
    destruct (colon =? 0x3A); [|exact I].
    specialize (IHv r2 ltac:(lia)).
    destruct (JSON.parse_value fuel r2) as [v rest| |]; simpl in IHv; try easy.
    destruct (JSON.skip_ws rest) as [|c r] eqn:Er; [exact I|].
    pose proof (skip_ws_cons _ _ _ Er).
    destruct (c =? 0x2C).
    { specialize (IHm r ltac:(lia)).
      destruct (JSON.parse_members fuel r); simpl in *; try easy; lia. }
    destruct (c =? 0x7D); simpl; [lia | exact I].
Qed.

(** [JSON.parse] never stops for want of fuel: its [None] is a syntax
    error. *)
Lemma parse_value_fed (text : jsstring) :
  JSON.parse_value (2 * length text + 2) text ≠ JSON.Starved.
Proof.
  destruct (parse_fed (2 * length text + 2)) as (Hv & _).
  specialize (Hv text ltac:(lia)). intros E. now rewrite E in Hv.
Qed.

(** A text that starts with an opening bracket parses to an array or not
    at all. *)
Lemma parse_open_is_array (r : jsstring) (v : json) :
  JSON.parse (JS.OPEN :: r) = Some v → ∃ items, v = JArray items.
Proof.
  unfold JSON.parse.
  replace (2 * length (JS.OPEN :: r) + 2)%nat
    with (S (2 * length r + 3))%nat by (simpl; lia).
  cbn [JSON.parse_value].
  change (JSON.skip_ws (JS.OPEN :: r)) with (JS.OPEN :: r). cbv beta iota.
  change (JS.OPEN =? 0x7B) with false. change (JS.OPEN =? 0x5B) with true.
  cbv iota.
  destruct (JSON.skip_ws r) as [|c' r']; [discriminate|].
  destruct (c' =? 0x5D).
  - destruct (JSON.skip_ws r'); [|discriminate]. intros [= <-]. now eexists.
  - destruct (JSON.parse_elements _ r) as [vs rest| |]; try discriminate.
    destruct (JSON.skip_ws rest); [|discriminate]. intros [= <-]. now eexists.
Qed.

Lemma parse_bracketed_is_array (text m : jsstring) (v : json) :
  JS.match_bracketed text = Some m → JSON.parse m = Some v →
  ∃ items, v = JArray items.
Proof.
  intros Hm Hp. destruct (match_some_open _ _ Hm) as (r & ->).
  exact (parse_open_is_array _ _ Hp).
Qed.

End Fuel.

(** ** Quoting a string and reading it back *)

Section Quote.

Import Stringify.

Ltac cmp_cases :=
  repeat match goal with
    | |- context [?a <? ?b] => destruct (N.ltb_spec a b)
    | |- context [?a <=? ?b] => destruct (N.leb_spec a b)
    | |- context [?a =? ?b] => destruct (N.eqb_spec a b)
    end.

Lemma hex_value_digit (d : N) : d < 16 → JSON.hex_value (hex_digit d) = Some d.
Proof.
  intros H. unfold JSON.hex_value, hex_digit, JSON.is_digit.
  cmp_cases; simpl; try lia; f_equal; lia.
Qed.

Lemma hex4_escape (c : N) :
  c < 65536 →
  JSON.hex4 (hex_digit (c / 4096 mod 16)) (hex_digit (c / 256 mod 16))
    (hex_digit (c / 16 mod 16)) (hex_digit (c mod 16)) = Some c.
Proof.
  intros H. unfold JSON.hex4.
  rewrite !hex_value_digit by (apply N.mod_upper_bound; lia).
  f_equal.
  pose proof (N.div_mod c 16 ltac:(lia)) as H0.
  pose proof (N.div_mod (c / 16) 16 ltac:(lia)) as H1.
  pose proof (N.div_mod (c / 256) 16 ltac:(lia)) as H2.
  replace (c / 256) with (c / 16 / 16) in * by (rewrite N.Div0.div_div; reflexivity).
  replace (c / 4096) with (c / 16 / 16 / 16) by (rewrite !N.Div0.div_div; reflexivity).
  assert (Hs : c / 16 / 16 / 16 < 16).
  { apply N.Div0.div_lt_upper_bound. apply N.Div0.div_lt_upper_bound.
    apply N.Div0.div_lt_upper_bound. lia. }
  rewrite (N.mod_small _ _ Hs). lia.
Qed.

Lemma scan_raw (c : N) (tail : jsstring) :
  0x20 <= c → c ≠ 0x22 → c ≠ 0x5C →
  JSON.scan_chars (c :: tail) = push c (JSON.scan_chars tail).
Proof.
  intros H1 H2 H3. cbn [JSON.scan_chars].
  destruct (N.eqb_spec c 0x22); [contradiction|].
  destruct (N.eqb_spec c 0x5C); [contradiction|].
  destruct (N.ltb_spec c 0x20); [lia|]. reflexivity.
Qed.

Lemma scan_escape (c : N) (tail : jsstring) :
  c < 65536 →
  JSON.scan_chars (unicode_escape c ++ tail) = push c (JSON.scan_chars tail).
Proof.
  intros H. unfold unicode_escape. cbn [app JSON.scan_chars].
  change (0x5C =? 0x22) with false. change (0x5C =? 0x5C) with true.
  change (0x75 =? 0x75) with true. cbv iota.
  now rewrite hex4_escape.
Qed.

Lemma scan_quote_unit (c : N) (tail : jsstring) :
  JSON.scan_chars (quote_unit c ++ tail) = push c (JSON.scan_chars tail).
Proof.
  unfold quote_unit.
  destruct (N.eqb_spec c 0x08) as [->|]; [reflexivity|].
  destruct (N.eqb_spec c 0x09) as [->|]; [reflexivity|].
  destruct (N.eqb_spec c 0x0A) as [->|]; [reflexivity|].
  destruct (N.eqb_spec c 0x0C) as [->|]; [reflexivity|].
  destruct (N.eqb_spec c 0x0D) as [->|]; [reflexivity|].
  destruct (N.eqb_spec c 0x22) as [->|]; [reflexivity|].
  destruct (N.eqb_spec c 0x5C) as [->|]; [reflexivity|].
  destruct (N.ltb_spec c 0x20).
  - apply scan_escape. lia.
  - now apply scan_raw.
Qed.

Lemma is_high_bounds (c : N) : is_high c = true → 0xD800 <= c <= 0xDBFF.
Proof. unfold is_high. cmp_cases; simpl; (discriminate || lia). Qed.

Lemma is_low_bounds (c : N) : is_low c = true → 0xDC00 <= c <= 0xDFFF.
Proof. unfold is_low. cmp_cases; simpl; (discriminate || lia). Qed.

Lemma scan_quote_chars (s rest : jsstring) :
  JSON.scan_chars (quote_chars s ++ 0x22 :: rest) = Some (s, rest).
Proof.
  enough (H : ∀ n (s : jsstring), (length s < n)%nat →
             JSON.scan_chars (quote_chars s ++ 0x22 :: rest) = Some (s, rest))
    by exact (H (S (length s)) s (Nat.lt_succ_diag_r _)).
  clear s. induction n as [|n IH]; intros s Hn; [lia|].
  destruct s as [|c r]; [reflexivity|]. simpl in Hn.
  cbn [quote_chars].
  destruct (is_high c) eqn:Hh.
  - apply is_high_bounds in Hh.
    destruct r as [|d r'].
    + rewrite scan_escape by lia. reflexivity.
    + destruct (is_low d) eqn:Hl.
      * apply is_low_bounds in Hl. cbn [app].
        rewrite scan_raw by lia. rewrite scan_raw by lia.
        rewrite IH by (simpl in Hn; lia). reflexivity.
      * rewrite <- app_assoc, scan_escape by lia.
        rewrite IH by lia. reflexivity.
  - destruct (is_low c) eqn:Hl.
    + apply is_low_bounds in Hl.
      rewrite <- app_assoc, scan_escape by lia.
      rewrite IH by lia. reflexivity.
    + rewrite <- app_assoc, scan_quote_unit.
      rewrite IH by lia. reflexivity.
Qed.

(** A quoted string is a value that parses back to the string. *)
Lemma parse_value_quote (fuel : nat) (s rest : jsstring) :
  JSON.parse_value (S fuel) (quote s ++ rest) = JSON.Ok (JString s) rest.
Proof.
  unfold quote. cbn [app JSON.parse_value].
  change (JSON.skip_ws (0x22 :: ?t)) with (0x22 :: t). cbv beta iota.
  change (0x22 =? 0x7B) with false. change (0x22 =? 0x5B) with false.
  change (0x22 =? 0x22) with true. cbv iota.
  rewrite <- app_assoc. cbn [app].
  now rewrite scan_quote_chars.
Qed.

End Quote.

(** ** Preferences through [JSON.stringify] and [JSON.parse] *)

Section Preferences.

Import Stringify.

(** One [key:string] member followed by a comma. *)
Lemma parse_members_more (fuel : nat) (k v more : jsstring) :
  JSON.parse_members (S (S fuel)) (quote k ++ 0x3A :: quote v ++ 0x2C :: more)
  = match JSON.parse_members (S fuel) more with
    | JSON.Ok ms rest => JSON.Ok ((k, JString v) :: ms) rest
    | JSON.Bad => JSON.Bad
    | JSON.Starved => JSON.Starved
    end.
Proof.
  cbn [JSON.parse_members]. unfold quote at 1. cbn [app].
  change (JSON.skip_ws (0x22 :: ?t)) with (0x22 :: t). cbv beta iota.
  change (0x22 =? 0x22) with true. cbv iota.
  rewrite <- app_assoc. cbn [app]. rewrite scan_quote_chars.
  change (JSON.skip_ws (0x3A :: ?t)) with (0x3A :: t). cbv beta iota.
  change (0x3A =? 0x3A) with true. cbv iota.
  rewrite parse_value_quote.
  change (JSON.skip_ws (0x2C :: ?t)) with (0x2C :: t). cbv beta iota.
  change (0x2C =? 0x2C) with true. cbv iota.
  reflexivity.
Qed.

(** The last member, followed by the closing brace. *)
Lemma parse_members_last (fuel : nat) (k v rest : jsstring) :
  JSON.parse_members (S (S fuel)) (quote k ++ 0x3A :: quote v ++ 0x7D :: rest)
  = JSON.Ok [(k, JString v)] rest.
Proof.
  cbn [JSON.parse_members]. unfold quote at 1. cbn [app].
  change (JSON.skip_ws (0x22 :: ?t)) with (0x22 :: t). cbv beta iota.
  change (0x22 =? 0x22) with true. cbv iota.
  rewrite <- app_assoc. cbn [app]. rewrite scan_quote_chars.
  change (JSON.skip_ws (0x3A :: ?t)) with (0x3A :: t). cbv beta iota.
  change (0x3A =? 0x3A) with true. cbv iota.
  rewrite parse_value_quote.
  change (JSON.skip_ws (0x7D :: ?t)) with (0x7D :: t). cbv beta iota.
  change (0x7D =? 0x2C) with false. change (0x7D =? 0x7D) with true.
  reflexivity.
Qed.

Lemma parse_value_object (fuel : nat) (k t : jsstring) :
  JSON.parse_value (S fuel) (0x7B :: quote k ++ t)
  = match JSON.parse_members fuel (quote k ++ t) with
    | JSON.Ok ms rest => JSON.Ok (JSON.object_of_members ms) rest
    | JSON.Bad => JSON.Bad
    | JSON.Starved => JSON.Starved
    end.
Proof.
  cbn [JSON.parse_value].
  change (JSON.skip_ws (0x7B :: ?t)) with (0x7B :: t). cbv beta iota.
  change (0x7B =? 0x7B) with true. cbv iota.
  unfold quote at 1. cbn [app].
  change (JSON.skip_ws (0x22 :: ?t)) with (0x22 :: t). cbv beta iota.
  change (0x22 =? 0x7D) with false. cbv iota.
  reflexivity.
Qed.

Lemma stringify_preferences (p : UserPreferences.t) (rest : jsstring) :
  stringify (json_of_preferences p) ++ rest
  = 0x7B :: quote (lit "goal") ++ 0x3A :: quote (UserPreferences.goal p)
      ++ 0x2C :: quote (lit "timeframe") ++ 0x3A :: quote (UserPreferences.timeframe p)
      ++ 0x2C :: quote (lit "experience") ++ 0x3A :: quote (UserPreferences.experience p)
      ++ 0x2C :: quote (lit "dedication") ++ 0x3A :: quote (UserPreferences.dedication p)
      ++ 0x7D :: rest.
Proof.
  unfold json_of_preferences. cbn [stringify map join_comma fst snd].
  cbn [app]. repeat (rewrite <- !app_assoc; cbn [app]). reflexivity.
Qed.

Lemma parse_value_preferences (fuel : nat) (p : UserPreferences.t) (rest : jsstring) :
  JSON.parse_value (6 + fuel) (stringify (json_of_preferences p) ++ rest)
  = JSON.Ok (json_of_preferences p) rest.
Proof.
  rewrite stringify_preferences.
  change (6 + fuel)%nat with (S (S (S (S (S (S fuel)))))).
  rewrite parse_value_object.
  rewrite !parse_members_more, parse_members_last.
  reflexivity.
Qed.

Lemma stringify_preferences_length (p : UserPreferences.t) :
  (2 <= length (stringify (json_of_preferences p)))%nat.
Proof.
  rewrite <- (app_nil_r (stringify _)), stringify_preferences.
  unfold quote. simpl. lia.
Qed.

Lemma parse_stringify_preferences (p : UserPreferences.t) :
  JSON.parse (stringify (json_of_preferences p)) = Some (json_of_preferences p).
Proof.
  unfold JSON.parse.
  pose proof (stringify_preferences_length p) as Hl.
  replace (2 * length (stringify (json_of_preferences p)) + 2)%nat
    with (6 + (2 * length (stringify (json_of_preferences p)) - 4))%nat by lia.
  rewrite <- (app_nil_r (stringify (json_of_preferences p))) at 2.
  rewrite parse_value_preferences. reflexivity.
Qed.

Lemma preferences_of_json_of_preferences (p : UserPreferences.t) :
  preferences_of_json (json_of_preferences p) = Some p.
Proof. destruct p. reflexivity. Qed.

Lemma stringify_preferences_truthy (p : UserPreferences.t) :
  JS.truthy (stringify (json_of_preferences p)) = true.
Proof. reflexivity. Qed.

(** Reading back what was stored under [lastPreferences]. *)
Lemma init_preferences_stored (p : UserPreferences.t) (store : gmap string jsstring) :
  store !! "lastPreferences"%string = Some (stringify (json_of_preferences p)) →
  init_preferences store = Some p.
Proof.
  intros H. unfold init_preferences. rewrite H.
  rewrite stringify_preferences_truthy, parse_stringify_preferences.
  apply preferences_of_json_of_preferences.
Qed.

End Preferences.

(** ** Finding the step arrays of a text *)

Section Occurrences.






End Occurrences.

(** ** The handlers *)

Section Handlers.

Lemma begin_passes (s : Session) :
  validation_passes s →
  generateRoadmap_begin s
  = Awaiting (setLoading true (setError (lit "") s)) (capture s).
Proof.
  intros [Hk Hg]. unfold generateRoadmap_begin.
  now rewrite (truthy_trim _ Hk), (truthy_trim _ Hg).
Qed.

Lemma begin_awaiting (s s1 : Session) (k : Closure) :
  generateRoadmap_begin s = Awaiting s1 k →
  s1 = setLoading true (setError (lit "") s) ∧ k = capture s.
Proof.
  unfold generateRoadmap_begin.
  destruct (negb _); [discriminate|]. destruct (negb _); [discriminate|].
  intros [= <- <-]. now split.
Qed.

Lemma generateRoadmap_passes (remote : Request -> Response) (s : Session) :
  validation_passes s →
  generateRoadmap remote s
  = generateRoadmap_resume (capture s) (remote (request_of (capture s)))
      (setLoading true (setError (lit "") s)).
Proof. intros H. unfold generateRoadmap. now rewrite (begin_passes s H). Qed.

(** The [try] block completes. *)
Lemma resume_success (k : Closure) (r : Response) (s : Session) items :
  try_block r = inr items →
  generateRoadmap_resume k r s
  = setLoading false
      (setItem "geminiApiKey" (captured_apiKey k)
         (setItem "lastPreferences"
            (Stringify.stringify (json_of_preferences (captured_preferences k)))
            (setRoadmap items s))).
Proof. intros H. unfold generateRoadmap_resume. now rewrite H. Qed.

(** The [catch] clause runs. *)
Lemma resume_failure (k : Closure) (r : Response) (s : Session) e :
  try_block r = inl e →
  generateRoadmap_resume k r s
  = setLoading false (console_error e (setError MSG_FAILED s)).
Proof. intros H. unfold generateRoadmap_resume. now rewrite H. Qed.


End Handlers.

(** ** Validation *)

(** C3: when the credential is empty or white space only, or the goal is,
    [generateRoadmap] returns at once with a validation message as the
    error and everything else as it was; it never reaches the remote call,
    whatever the remote service would have answered. *)
Theorem validation_blocks_blank_input (s : Session) :
  blank (apiKey s) ∨ blank (UserPreferences.goal (preferences s)) →
  ∃ msg, msg ≠ lit ""
         ∧ generateRoadmap_begin s = Returned (setError msg s)
         ∧ ∀ remote, generateRoadmap remote s = setError msg s.
Proof.
  intros H. unfold generateRoadmap, generateRoadmap_begin.
  destruct (negb (JS.truthy (JS.trim (apiKey s)))) eqn:Ek.
  - exists MSG_NO_KEY. repeat split. discriminate.
  - assert (Hg : blank (UserPreferences.goal (preferences s))).
    { destruct H as [H|H]; [|exact H].
      apply not_truthy_trim in H. congruence. }
    apply not_truthy_trim in Hg. rewrite Hg.
    exists MSG_NO_GOAL. repeat split. discriminate.
Qed.

Lemma validation_blocks_blank_input_witness :
  (blank (apiKey keyless_session)
   ∨ blank (UserPreferences.goal (preferences keyless_session)))
  ∧ ∃ msg, msg ≠ lit ""
           ∧ generateRoadmap_begin keyless_session
             = Returned (setError msg keyless_session)
           ∧ ∀ remote, generateRoadmap remote keyless_session
                       = setError msg keyless_session.
Proof.
  assert (H : blank (apiKey keyless_session)
              ∨ blank (UserPreferences.goal (preferences keyless_session))).
  { left. repeat constructor. }
  split; [exact H | exact (validation_blocks_blank_input keyless_session H)].
Defined.

(** ** Responses without a bracketed substring *)

(** C4: when the response text has no substring of the form [[...]], the
    run ends in the [catch] clause with the error [Invalid response
    format]: the roadmap is the one held before the call, the generic
    error message is set, and the busy flag is off. *)
Theorem no_bracket_response_fails (remote : Request -> Response) (s : Session)
  (text : jsstring) :
  validation_passes s →
  remote (request_of (capture s)) = Text text →
  ¬ has_bracketed text →
  let s' := generateRoadmap remote s in
  fails_with_parse_error s s'
  ∧ console s' = console s ++ [InvalidResponseFormat]
  ∧ error s' ≠ lit "".
Proof.
  intros Hv Hr Hn s'. subst s'.
  rewrite (generateRoadmap_passes _ _ Hv), Hr.
  rewrite (resume_failure _ (Text text) _ InvalidResponseFormat)
    by (cbn [try_block]; unfold parseResponse; now rewrite (match_none _ Hn)).
  repeat split; try reflexivity; try discriminate.
  exists InvalidResponseFormat. split; [now left | reflexivity].
Qed.

Lemma ready_session_passes : validation_passes ready_session.
Proof.
  split; intros H; apply not_truthy_trim in H; vm_compute in H; discriminate.
Qed.

Lemma held_session_passes : validation_passes held_session.
Proof. exact ready_session_passes. Qed.

Lemma no_bracket_in_apology : ¬ has_bracketed (lit "Sorry, I cannot help.").
Proof.
  intros (pre & mid & post & H).
  assert (Hin : JS.OPEN ∈ lit "Sorry, I cannot help.") by (rewrite H; set_solver).
  vm_compute in Hin. repeat (apply elem_of_cons in Hin as [Hin|Hin]; [discriminate|]).
  now apply elem_of_nil in Hin.
Qed.

Lemma no_bracket_response_fails_witness :
  validation_passes held_session
  ∧ ¬ has_bracketed (lit "Sorry, I cannot help.")
  ∧ let s' := generateRoadmap (fun _ => Text (lit "Sorry, I cannot help.")) held_session in
    fails_with_parse_error held_session s'
    ∧ console s' = console held_session ++ [InvalidResponseFormat]
    ∧ error s' ≠ lit "".
Proof.
  split; [exact held_session_passes|]. split; [exact no_bracket_in_apology|].
  exact (no_bracket_response_fails (fun _ => Text (lit "Sorry, I cannot help."))
           held_session (lit "Sorry, I cannot help.")
           held_session_passes eq_refl no_bracket_in_apology).
Defined.

(** ** Responses with a bracketed substring *)













(** ** A successful run *)

Lemma generation_succeeds_run (remote : Request -> Response) (s : Session) :
  generation_succeeds remote s →
  ∃ items,
    try_block (remote (request_of (capture s))) = inr items
    ∧ generateRoadmap remote s
      = setLoading false
          (setItem "geminiApiKey" (apiKey s)
             (setItem "lastPreferences"
                (Stringify.stringify (json_of_preferences (preferences s)))
                (setRoadmap items (setLoading true (setError (lit "") s))))).
Proof.
  intros (s1 & k & items & Hb & Ht).
  destruct (begin_awaiting _ _ _ Hb) as [-> ->].
  exists items. split; [exact Ht|].
  unfold generateRoadmap. rewrite Hb.
  now rewrite (resume_success _ _ _ items Ht).
Qed.

Lemma ready_session_succeeds :
  generation_succeeds (fun _ => Text wrapped_text) ready_session.
Proof.
  exists (setLoading true (setError (lit "") ready_session)),
    (capture ready_session), one_step.
  split; [exact (begin_passes _ ready_session_passes)|].
  vm_compute. reflexivity.
Qed.

(** C9: after a run that succeeds the error message is the empty string,
    whatever message was shown before; the success path sets none. *)
Theorem success_clears_error (remote : Request -> Response) (s : Session) :
  generation_succeeds remote s →
  error (generateRoadmap remote s) = lit "".
Proof.
  intros H. destruct (generation_succeeds_run _ _ H) as (items & _ & ->).
  reflexivity.
Qed.

Lemma success_clears_error_witness :
  generation_succeeds (fun _ => Text wrapped_text) ready_session
  ∧ error ready_session = MSG_FAILED
  ∧ error (generateRoadmap (fun _ => Text wrapped_text) ready_session) = lit "".
Proof.
  split; [exact ready_session_succeeds|]. split; [reflexivity|].
  exact (success_clears_error _ _ ready_session_succeeds).
Defined.

(** C7: whatever preferences the handler closed over, what a completed
    [try] block writes under [lastPreferences] is read back by the
    initialiser of the next session as the same preferences. *)
Theorem preferences_survive_restart (k : Closure) (r : Response)
  (s : Session) (items : list json) :
  try_block r = inr items →
  init_preferences (localStorage (generateRoadmap_resume k r s))
  = Some (captured_preferences k).
Proof.
  intros H. rewrite (resume_success _ _ _ items H).
  apply init_preferences_stored. cbn [localStorage setLoading setItem].
  rewrite lookup_insert_ne by discriminate.
  apply lookup_insert_eq.
Qed.

Lemma preferences_survive_restart_witness :
  try_block (Text wrapped_text) = inr one_step
  ∧ init_preferences
      (localStorage
         (generateRoadmap_resume (capture ready_session) (Text wrapped_text)
            ready_session))
    = Some rust_preferences.
Proof.
  assert (H : try_block (Text wrapped_text) = inr one_step)
    by (vm_compute; reflexivity).
  split; [exact H|].
  exact (preferences_survive_restart (capture ready_session)
           (Text wrapped_text) ready_session one_step H).
Defined.

(** The same for a whole run. *)
Lemma preferences_survive_restart_run (remote : Request -> Response)
  (s : Session) :
  generation_succeeds remote s →
  init_preferences (localStorage (generateRoadmap remote s))
  = Some (preferences s).
Proof.
  intros H. destruct (generation_succeeds_run _ _ H) as (items & _ & ->).
  apply init_preferences_stored. cbn [localStorage setLoading setItem].
  rewrite lookup_insert_ne by discriminate.
  apply lookup_insert_eq.
Qed.

(** ** Saving and loading *)

(** C5: with a non-empty current roadmap, [saveRoadmap] appends one entry
    to the saved list; its steps are the current roadmap and its
    preferences the current preferences; the list is one longer and every
    earlier entry is where it was, unchanged. *)
Theorem save_appends_one (now : jsstring) (s : Session) :
  roadmap s ≠ [] →
  ∃ entry,
    savedRoadmaps (saveRoadmap now s) = savedRoadmaps s ++ [entry]
    ∧ SavedRoadmap.steps entry = roadmap s
    ∧ SavedRoadmap.preferences entry = preferences s
    ∧ length (savedRoadmaps (saveRoadmap now s)) = S (length (savedRoadmaps s))
    ∧ (∀ i old, savedRoadmaps s !! i = Some old →
                savedRoadmaps (saveRoadmap now s) !! i = Some old)
    ∧ localStorage (saveRoadmap now s) !! "savedRoadmaps"%string
      = Some (Stringify.stringify
                (JArray (map json_of_saved (savedRoadmaps (saveRoadmap now s))))).
Proof.
  intros Hne. unfold saveRoadmap.
  destruct (roadmap s) as [|step steps] eqn:Er; [contradiction|].
  cbn [length Nat.eqb savedRoadmaps localStorage setItem setSavedRoadmaps].
  eexists. split; [reflexivity|]. cbn [SavedRoadmap.steps SavedRoadmap.preferences].
  repeat split.
  - rewrite length_app. simpl. lia.
  - intros i old Hi. now apply lookup_app_l_Some.
  - apply lookup_insert_eq.
Qed.

Lemma save_appends_one_witness :
  roadmap held_session ≠ []
  ∧ ∃ entry,
      savedRoadmaps (saveRoadmap (lit "2025-01-01T00:00:00.000Z") held_session)
      = savedRoadmaps held_session ++ [entry]
      ∧ SavedRoadmap.steps entry = roadmap held_session
      ∧ SavedRoadmap.preferences entry = preferences held_session
      ∧ length (savedRoadmaps (saveRoadmap (lit "2025-01-01T00:00:00.000Z") held_session))
        = S (length (savedRoadmaps held_session))
      ∧ (∀ i old, savedRoadmaps held_session !! i = Some old →
                  savedRoadmaps (saveRoadmap (lit "2025-01-01T00:00:00.000Z") held_session) !! i
                  = Some old)
      ∧ localStorage (saveRoadmap (lit "2025-01-01T00:00:00.000Z") held_session)
          !! "savedRoadmaps"%string
        = Some (Stringify.stringify
                  (JArray (map json_of_saved
                             (savedRoadmaps
                                (saveRoadmap (lit "2025-01-01T00:00:00.000Z") held_session))))).
Proof.
  assert (H : roadmap held_session ≠ []) by discriminate.
  split; [exact H|].
  exact (save_appends_one (lit "2025-01-01T00:00:00.000Z") held_session H).
Defined.

(** C6: [loadRoadmap] makes the entry's preferences the current
    preferences and the entry's steps the current roadmap, and leaves the
    saved list, and the store, as they were. *)
Theorem load_replaces_current (saved : SavedRoadmap.t) (s : Session) :
  preferences (loadRoadmap saved s) = SavedRoadmap.preferences saved
  ∧ roadmap (loadRoadmap saved s) = SavedRoadmap.steps saved
  ∧ savedRoadmaps (loadRoadmap saved s) = savedRoadmaps s
  ∧ localStorage (loadRoadmap saved s) = localStorage s.
Proof. repeat split. Qed.

(** C8: with an empty current roadmap, [saveRoadmap] changes nothing: the
    saved list, in the session and in the store, is what it was. *)
Theorem save_empty_is_noop (now : jsstring) (s : Session) :
  roadmap s = [] →
  saveRoadmap now s = s
  ∧ savedRoadmaps (saveRoadmap now s) = savedRoadmaps s
  ∧ length (savedRoadmaps (saveRoadmap now s)) = length (savedRoadmaps s)
  ∧ localStorage (saveRoadmap now s) !! "savedRoadmaps"%string
    = localStorage s !! "savedRoadmaps"%string.
Proof.
  intros H. assert (E : saveRoadmap now s = s).
  { unfold saveRoadmap. now rewrite H. }
  rewrite E. repeat split.
Qed.

Lemma save_empty_is_noop_witness :
  roadmap ready_session = []
  ∧ saveRoadmap (lit "2025-01-01T00:00:00.000Z") ready_session = ready_session
  ∧ savedRoadmaps (saveRoadmap (lit "2025-01-01T00:00:00.000Z") ready_session)
    = savedRoadmaps ready_session
  ∧ length (savedRoadmaps (saveRoadmap (lit "2025-01-01T00:00:00.000Z") ready_session))
    = length (savedRoadmaps ready_session)
  ∧ localStorage (saveRoadmap (lit "2025-01-01T00:00:00.000Z") ready_session)
      !! "savedRoadmaps"%string
    = localStorage ready_session !! "savedRoadmaps"%string.
Proof.
  split; [reflexivity|].
  exact (save_empty_is_noop (lit "2025-01-01T00:00:00.000Z") ready_session eq_refl).
Defined.

(** C10: [saveRoadmap] touches the saved list only: the current roadmap,
    the preferences, the credential, the error message, the busy flag, the
    display mode and the credential-form flag are what they were, nothing
    is logged, and every key of the store other than [savedRoadmaps] holds
    what it held. *)
Theorem save_frame (now : jsstring) (s : Session) :
  let s' := saveRoadmap now s in
  roadmap s' = roadmap s
  ∧ preferences s' = preferences s
  ∧ apiKey s' = apiKey s
  ∧ error s' = error s
  ∧ loading s' = loading s
  ∧ isDarkMode s' = isDarkMode s
  ∧ showApiInput s' = showApiInput s
  ∧ console s' = console s
  ∧ ∀ key : string, key ≠ "savedRoadmaps"%string →
                    localStorage s' !! key = localStorage s !! key.
Proof.
  intros s'. subst s'. unfold saveRoadmap.
  destruct (length (roadmap s) =? 0)%nat; [repeat split|].
  repeat split. intros key Hk.
  cbn [localStorage setItem setSavedRoadmaps].
  now apply lookup_insert_ne.
Qed.

Lemma save_frame_witness :
  let s' := saveRoadmap (lit "2025-01-01T00:00:00.000Z") held_session in
  roadmap s' = roadmap held_session
  ∧ preferences s' = preferences held_session
  ∧ apiKey s' = apiKey held_session
  ∧ error s' = error held_session
  ∧ loading s' = loading held_session
  ∧ isDarkMode s' = isDarkMode held_session
  ∧ showApiInput s' = showApiInput held_session
  ∧ console s' = console held_session
  ∧ ∀ key : string, key ≠ "savedRoadmaps"%string →
                    localStorage s' !! key = localStorage held_session !! key.
Proof.
  exact (save_frame (lit "2025-01-01T00:00:00.000Z") held_session).
Defined.

(** * Further properties of the component *)

(** ** The bracket pattern, both ways *)

Section MatchSpec.

Lemma greedy_is_some (s : jsstring) :
  JS.CLOSE ∈ s → is_Some (JS.greedy_to_close s).
Proof.
  induction s as [|c r IH]; intros H; [now apply elem_of_nil in H|].
  simpl. destruct (JS.greedy_to_close r) as [m|] eqn:E; [now eexists|].
  apply elem_of_cons in H as [<-|H].
  - rewrite N.eqb_refl. now eexists.
  - destruct (IH H) as [m Hm]. discriminate Hm.
Qed.

Lemma greedy_spec (s m : jsstring) :
  JS.greedy_to_close s = Some m →
  ∃ mid post, s = m ++ post ∧ m = mid ++ [JS.CLOSE] ∧ (JS.CLOSE ∉ post).
Proof.
  revert m. induction s as [|c r IH]; simpl; intros m; [discriminate|].
  destruct (JS.greedy_to_close r) as [m'|] eqn:E.
  - intros [= <-]. destruct (IH m' eq_refl) as (mid & post & -> & -> & Hp).
    exists (c :: mid), post. now repeat split.
  - destruct (N.eqb_spec c JS.CLOSE) as [->|_]; [|discriminate].
    intros [= <-]. exists [], r. repeat split.
    intros Hin. destruct (greedy_is_some r Hin) as [x Hx]. congruence.
Qed.

Lemma match_is_some (pre r : jsstring) :
  JS.CLOSE ∈ r → is_Some (JS.match_bracketed (pre ++ JS.OPEN :: r)).
Proof.
  intros Hr. induction pre as [|c pre IH]; cbn [app JS.match_bracketed].
  - rewrite N.eqb_refl. destruct (greedy_is_some r Hr) as [m ->]. now eexists.
  - destruct (c =? JS.OPEN); [|exact IH].
    destruct (greedy_is_some (pre ++ JS.OPEN :: r)) as [m ->]; [|now eexists].
    apply elem_of_app. right. now apply elem_of_cons; right.
Qed.

End MatchSpec.

Lemma match_none_iff (text : jsstring) :
  JS.match_bracketed text = None ↔ ¬ has_bracketed text.
Proof.
  split; [|apply match_none].
  intros Hn (pre & mid & post & ->).
  destruct (match_is_some pre (mid ++ JS.CLOSE :: post)) as [m Hm];
    [apply elem_of_app; right; apply elem_of_cons; now left | congruence].
Qed.

Lemma match_some_decompose (text m : jsstring) :
  JS.match_bracketed text = Some m →
  ∃ pre mid post,
    text = pre ++ m ++ post ∧ m = JS.OPEN :: mid ++ [JS.CLOSE]
    ∧ (JS.OPEN ∉ pre) ∧ (JS.CLOSE ∉ post).
Proof.
  revert m. induction text as [|c r IH]; simpl; intros m; [discriminate|].
  assert (Hrec : JS.match_bracketed r = Some m → c ≠ JS.OPEN →
                 ∃ pre mid post,
                   c :: r = pre ++ m ++ post ∧ m = JS.OPEN :: mid ++ [JS.CLOSE]
                   ∧ (JS.OPEN ∉ pre) ∧ (JS.CLOSE ∉ post)).
  { intros Hm Hc. destruct (IH m Hm) as (pre & mid & post & -> & -> & Hp & Hq).
    exists (c :: pre), mid, post. repeat split; [|exact Hq].
    intros Hin. apply elem_of_cons in Hin as [Hin|Hin]; [congruence | tauto]. }
  destruct (N.eqb_spec c JS.OPEN) as [->|Hc]; [|intros Hm; now apply Hrec].
  destruct (JS.greedy_to_close r) as [m'|] eqn:Hg.
  - intros [= <-]. destruct (greedy_spec _ _ Hg) as (mid & post & -> & -> & Hp).
    exists [], mid, post. repeat split; [|exact Hp]. apply not_elem_of_nil.
  - intros Hm. exfalso.
    destruct (IH m Hm) as (pre & mid & post & -> & -> & _).
    destruct (greedy_is_some (pre ++ (JS.OPEN :: mid ++ [JS.CLOSE]) ++ post))
      as [x Hx]; [|congruence].
    apply elem_of_app. right. apply elem_of_app. left.
    apply elem_of_cons. right. apply elem_of_app. right.
    apply elem_of_cons. now left.
Qed.

(** X1: the pattern of line 120 matches exactly when the text has an
    opening bracket with a closing bracket somewhere after it, and the match
    is then the text from the first opening bracket to the last closing
    bracket. *)
Theorem match_bracketed_spec (text : jsstring) :
  (JS.match_bracketed text = None ↔ ¬ has_bracketed text)
  ∧ ∀ m, JS.match_bracketed text = Some m ↔
         ∃ pre mid post,
           text = pre ++ m ++ post ∧ m = JS.OPEN :: mid ++ [JS.CLOSE]
           ∧ (JS.OPEN ∉ pre) ∧ (JS.CLOSE ∉ post).
Proof.
  split; [apply match_none_iff|]. intros m. split.
  - apply match_some_decompose.
  - intros (pre & mid & post & -> & -> & Hp & Hq).
    now apply match_first_to_last.
Qed.

Lemma classic_has (text : jsstring) : has_bracketed text ∨ ¬ has_bracketed text.
Proof.
  destruct (JS.match_bracketed text) as [m|] eqn:Hm.
  - left. apply match_some_decompose in Hm as (pre & mid & post & -> & -> & _).
    exists pre, mid, post. cbn [app]. now rewrite <- app_assoc.
  - right. now apply match_none_iff.
Qed.

(** X2: the three outcomes of lines 120-125.  [Invalid response format]
    is thrown exactly when the text has no bracketed substring; a syntax
    error exactly when the match does not parse; and a roadmap is produced
    exactly when the match parses, to the array that it denotes. *)
Theorem parseResponse_outcomes (text : jsstring) :
  (parseResponse text = inl InvalidResponseFormat ↔ ¬ has_bracketed text)
  ∧ (parseResponse text = inl JsonSyntaxError ↔
     ∃ m, JS.match_bracketed text = Some m ∧ JSON.parse m = None)
  ∧ (∀ items, parseResponse text = inr items ↔
              ∃ m, JS.match_bracketed text = Some m
                   ∧ JSON.parse m = Some (JArray items))
  ∧ (∀ reason, parseResponse text ≠ inl (RemoteError reason)).
Proof.
  pose proof (match_none_iff text) as Hnone.
  unfold parseResponse.
  destruct (JS.match_bracketed text) as [m|] eqn:Hm.
  - assert (Hb : has_bracketed text).
    { destruct (classic_has text) as [H|H]; [exact H|].
      apply Hnone in H. discriminate H. }
    destruct (JSON.parse m) as [v|] eqn:Hp.
    + destruct (parse_bracketed_is_array _ _ _ Hm Hp) as (items & ->).
      repeat split.
      * discriminate.
      * tauto.
      * discriminate.
      * intros (m' & [= <-] & Hp'). congruence.
      * intros [= <-]. now exists m.
      * intros (m' & [= <-] & Hp'). congruence.
      * discriminate.
    + repeat split; try discriminate; try tauto.
      * intros _. now exists m.
      * intros (m' & [= <-] & Hp'). congruence.
  - repeat split; try discriminate.
    + intros _. now apply Hnone.
    + intros (m' & Hm' & _). discriminate.
    + intros (m' & Hm' & _). discriminate.
Qed.

(** ** [generateRoadmap]: the paths the handler can take *)

(** X3: the handler reaches the remote call exactly when neither the
    credential nor the goal is blank.  It is then suspended with the busy
    flag set and the error message cleared, nothing else changed, and the
    request carries the credential, the model name and the prompt built
    from the current preferences. *)
Theorem begin_awaits_iff (s : Session) :
  ((∃ s1 k, generateRoadmap_begin s = Awaiting s1 k) ↔ validation_passes s)
  ∧ ∀ s1 k, generateRoadmap_begin s = Awaiting s1 k →
            s1 = setLoading true (setError [] s)
            ∧ loading s1 = true ∧ error s1 = []
            ∧ credential (request_of k) = apiKey s
            ∧ model (request_of k) = lit "gemini-2.0-flash"
            ∧ prompt (request_of k) = generatePrompt (preferences s).
Proof.
  split.
  - split.
    + intros (s1 & k & H). unfold generateRoadmap_begin in H.
      destruct (negb (JS.truthy (JS.trim (apiKey s)))) eqn:Ek; [discriminate|].
      destruct (negb (JS.truthy (JS.trim (UserPreferences.goal (preferences s)))))
        eqn:Eg; [discriminate|].
      split; intros Hb; apply not_truthy_trim in Hb; congruence.
    + intros H. rewrite (begin_passes s H). now eexists _, _.
  - intros s1 k H. destruct (begin_awaiting _ _ _ H) as [-> ->].
    now repeat split.
Qed.

(** X4: whatever makes the [try] block throw (the remote call rejecting,
    no bracketed substring, a match that does not parse), the run shows the
    generic message, logs that one error, switches the busy flag off and
    changes nothing else: the roadmap, the preferences, the credential,
    the saved list and the store are what they were. *)
Theorem failed_run_frame (remote : Request -> Response) (s : Session) (e : Exn) :
  validation_passes s →
  try_block (remote (request_of (capture s))) = inl e →
  generateRoadmap remote s
  = setLoading false (console_error e (setError MSG_FAILED s))
  ∧ let s' := generateRoadmap remote s in
    error s' = MSG_FAILED ∧ console s' = console s ++ [e]
    ∧ loading s' = false
    ∧ roadmap s' = roadmap s ∧ preferences s' = preferences s
    ∧ apiKey s' = apiKey s ∧ savedRoadmaps s' = savedRoadmaps s
    ∧ localStorage s' = localStorage s.
Proof.
  intros Hv He. rewrite (generateRoadmap_passes _ _ Hv).
  rewrite (resume_failure _ _ _ e He). now repeat split.
Qed.

Lemma failed_run_frame_witness :
  validation_passes held_session
  ∧ try_block (Rejected (lit "429 quota exceeded"))
    = inl (RemoteError (lit "429 quota exceeded"))
  ∧ generateRoadmap (fun _ => Rejected (lit "429 quota exceeded")) held_session
    = setLoading false
        (console_error (RemoteError (lit "429 quota exceeded"))
           (setError MSG_FAILED held_session))
  ∧ let s' := generateRoadmap (fun _ => Rejected (lit "429 quota exceeded")) held_session in
    error s' = MSG_FAILED
    ∧ console s' = console held_session ++ [RemoteError (lit "429 quota exceeded")]
    ∧ loading s' = false
    ∧ roadmap s' = roadmap held_session ∧ preferences s' = preferences held_session
    ∧ apiKey s' = apiKey held_session
    ∧ savedRoadmaps s' = savedRoadmaps held_session
    ∧ localStorage s' = localStorage held_session.
Proof.
  split; [exact held_session_passes|]. split; [reflexivity|].
  exact (failed_run_frame (fun _ => Rejected (lit "429 quota exceeded"))
           held_session _ held_session_passes eq_refl).
Defined.

(** X5: a run that succeeds replaces the roadmap and writes two keys of the
    store, [lastPreferences] and [geminiApiKey] (the credential as typed);
    every other key, the saved list, the preferences and the credential in
    the session are what they were, and nothing is logged. *)
Theorem successful_run_frame (remote : Request -> Response) (s : Session) :
  generation_succeeds remote s →
  let s' := generateRoadmap remote s in
  try_block (remote (request_of (capture s))) = inr (roadmap s')
  ∧ localStorage s' !! "geminiApiKey"%string = Some (apiKey s)
  ∧ localStorage s' !! "lastPreferences"%string
    = Some (Stringify.stringify (json_of_preferences (preferences s)))
  ∧ (∀ key : string, key ≠ "lastPreferences"%string → key ≠ "geminiApiKey"%string →
                     localStorage s' !! key = localStorage s !! key)
  ∧ savedRoadmaps s' = savedRoadmaps s
  ∧ preferences s' = preferences s ∧ apiKey s' = apiKey s
  ∧ console s' = console s ∧ loading s' = false.
Proof.
  intros H s'. subst s'.
  destruct (generation_succeeds_run _ _ H) as (items & Ht & ->).
  cbn [roadmap localStorage savedRoadmaps preferences apiKey console loading
       setLoading setItem setRoadmap setError].
  repeat split; try assumption.
  - apply lookup_insert_eq.
  - rewrite lookup_insert_ne by discriminate. apply lookup_insert_eq.
  - intros key H1 H2. now rewrite !lookup_insert_ne by congruence.
Qed.

Lemma successful_run_frame_witness :
  generation_succeeds (fun _ => Text wrapped_text) ready_session
  ∧ let s' := generateRoadmap (fun _ => Text wrapped_text) ready_session in
    try_block (Text wrapped_text) = inr (roadmap s')
    ∧ localStorage s' !! "geminiApiKey"%string = Some (apiKey ready_session)
    ∧ localStorage s' !! "lastPreferences"%string
      = Some (Stringify.stringify (json_of_preferences (preferences ready_session)))
    ∧ (∀ key : string, key ≠ "lastPreferences"%string → key ≠ "geminiApiKey"%string →
                       localStorage s' !! key = localStorage ready_session !! key)
    ∧ savedRoadmaps s' = savedRoadmaps ready_session
    ∧ preferences s' = preferences ready_session ∧ apiKey s' = apiKey ready_session
    ∧ console s' = console ready_session ∧ loading s' = false.
Proof.
  split; [exact ready_session_succeeds|].
  exact (successful_run_frame _ _ ready_session_succeeds).
Defined.

(** ** Starting the session *)

(** ** Starting the session *)

Lemma not_blank_truthy (k : jsstring) : ¬ blank k → JS.truthy k = true.
Proof. destruct k; [intros H; destruct H; constructor | reflexivity]. Qed.

Lemma generation_succeeds_passes (remote : Request -> Response) (s : Session) :
  generation_succeeds remote s → validation_passes s.
Proof.
  intros (s1 & k & _ & H & _). unfold generateRoadmap_begin in H.
  destruct (negb (JS.truthy (JS.trim (apiKey s)))) eqn:Ek; [discriminate|].
  destruct (negb (JS.truthy (JS.trim (UserPreferences.goal (preferences s)))))
    eqn:Eg; [discriminate|].
  split; intros Hb; apply not_truthy_trim in Hb; congruence.
Qed.

(** X6: restarting after a run that succeeded.  The next session starts
    with the preferences and the credential of that run and with the
    credential form hidden; the roadmap itself was not stored, so the new
    session has none, and its saved list is the stored one. *)
Theorem restart_after_success (remote : Request -> Response) (s : Session)
  (dark : bool) (saved : list SavedRoadmap.t) :
  generation_succeeds remote s →
  init_savedRoadmaps (localStorage s) = Some saved →
  App_init (localStorage (generateRoadmap remote s)) dark
  = Some {| preferences := preferences s; loading := false; roadmap := [];
            error := []; apiKey := apiKey s; showApiInput := false;
            isDarkMode := dark; savedRoadmaps := saved;
            localStorage := localStorage (generateRoadmap remote s);
            console := [] |}.
Proof.
  intros H Hs. pose proof (generation_succeeds_passes _ _ H) as [Hk _].
  destruct (generation_succeeds_run _ _ H) as (items & _ & E).
  assert (Hkey : localStorage (generateRoadmap remote s) !! "geminiApiKey"%string
                 = Some (apiKey s)).
  { rewrite E. apply lookup_insert_eq. }
  assert (Hpref : localStorage (generateRoadmap remote s) !! "lastPreferences"%string
                  = Some (Stringify.stringify (json_of_preferences (preferences s)))).
  { rewrite E. cbn [localStorage setLoading setItem].
    rewrite lookup_insert_ne by discriminate. apply lookup_insert_eq. }
  assert (Hother : localStorage (generateRoadmap remote s) !! "savedRoadmaps"%string
                   = localStorage s !! "savedRoadmaps"%string).
  { rewrite E. cbn [localStorage setLoading setItem].
    now rewrite !lookup_insert_ne by discriminate. }
  unfold App_init.
  rewrite (init_preferences_stored _ _ Hpref). cbn [mbind option_bind].
  unfold init_savedRoadmaps. rewrite Hother.
  fold (init_savedRoadmaps (localStorage s)). rewrite Hs. cbn [mbind option_bind].
  unfold init_apiKey, init_showApiInput. rewrite Hkey.
  now rewrite (not_blank_truthy _ Hk).
Qed.

Lemma restart_after_success_witness :
  generation_succeeds (fun _ => Text wrapped_text) ready_session
  ∧ init_savedRoadmaps (localStorage ready_session) = Some []
  ∧ App_init (localStorage (generateRoadmap (fun _ => Text wrapped_text) ready_session)) true
    = Some {| preferences := preferences ready_session; loading := false;
              roadmap := []; error := []; apiKey := apiKey ready_session;
              showApiInput := false; isDarkMode := true; savedRoadmaps := [];
              localStorage :=
                localStorage (generateRoadmap (fun _ => Text wrapped_text) ready_session);
              console := [] |}.
Proof.
  split; [exact ready_session_succeeds|]. split; [reflexivity|].
  exact (restart_after_success _ ready_session true [] ready_session_succeeds eq_refl).
Defined.

(** X7: with none of the three keys set (missing, or holding the empty
    string) the session starts from the defaults: an empty goal, six
    months, beginner, ten hours a week, no credential and the credential
    form shown, no roadmap, no saved roadmap, no error. *)
Theorem first_visit_defaults (store : gmap string jsstring) (dark : bool) :
  unset store "lastPreferences" → unset store "geminiApiKey" →
  unset store "savedRoadmaps" →
  App_init store dark
  = Some {| preferences := defaultPreferences; loading := false; roadmap := [];
            error := []; apiKey := []; showApiInput := true;
            isDarkMode := dark; savedRoadmaps := []; localStorage := store;
            console := [] |}.
Proof.
  intros Hp Hk Hs.
  unfold App_init, init_preferences, init_savedRoadmaps, init_apiKey,
    init_showApiInput.
  destruct Hp as [-> | ->], Hk as [-> | ->], Hs as [-> | ->]; reflexivity.
Qed.

Lemma first_visit_defaults_witness :
  unset cleared_store "lastPreferences"
  ∧ unset cleared_store "geminiApiKey"
  ∧ unset cleared_store "savedRoadmaps"
  ∧ App_init cleared_store false
    = Some {| preferences := defaultPreferences; loading := false; roadmap := [];
              error := []; apiKey := []; showApiInput := true;
              isDarkMode := false; savedRoadmaps := [];
              localStorage := cleared_store;
              console := [] |}.
Proof.
  assert (H1 : unset cleared_store "lastPreferences")
    by (left; reflexivity).
  assert (H2 : unset cleared_store "geminiApiKey")
    by (right; reflexivity).
  assert (H3 : unset cleared_store "savedRoadmaps")
    by (left; reflexivity).
  repeat (split; [assumption|]).
  exact (first_visit_defaults _ false H1 H2 H3).
Defined.

(** X8: the initialisers parse what they find without a guard: a
    non-empty text under [lastPreferences] or [savedRoadmaps] that is not
    valid JSON makes [JSON.parse] throw during the first render, and no
    session starts. *)
Theorem corrupt_store_breaks_start (store : gmap string jsstring) (dark : bool)
  (text : jsstring) :
  store !! "lastPreferences"%string = Some text
  ∨ store !! "savedRoadmaps"%string = Some text →
  text ≠ [] → JSON.parse text = None →
  App_init store dark = None ∧ ∀ cl, mount store cl = None.
Proof.
  intros Hs Hne Hp.
  assert (Ht : JS.truthy text = true) by now destruct text.
  assert (H : App_init store dark = None ∧ ∀ d, App_init store d = None).
  { enough (∀ d, App_init store d = None) by auto.
    intros d. unfold App_init. destruct Hs as [Hs|Hs].
    - unfold init_preferences. now rewrite Hs, Ht, Hp.
    - destruct (init_preferences store); [|reflexivity].
      cbn [mbind option_bind]. unfold init_savedRoadmaps. now rewrite Hs, Ht, Hp. }
  split; [exact (proj1 H)|]. intros cl. unfold mount. now rewrite (proj2 H).
Qed.

Lemma corrupt_store_breaks_start_witness :
  (corrupt_store !! "lastPreferences"%string
   = Some (lit "[{")
   ∨ corrupt_store !! "savedRoadmaps"%string
     = Some (lit "[{"))
  ∧ lit "[{" ≠ []
  ∧ JSON.parse (lit "[{") = None
  ∧ App_init corrupt_store false = None
  ∧ ∀ cl, mount corrupt_store cl = None.
Proof.
  assert (H1 : corrupt_store !! "lastPreferences"%string
               = Some (lit "[{")
               ∨ corrupt_store !! "savedRoadmaps"%string
                 = Some (lit "[{")) by (right; reflexivity).
  assert (H2 : lit "[{" ≠ []) by discriminate.
  assert (H3 : JSON.parse (lit "[{") = None) by (vm_compute; reflexivity).
  repeat (split; [assumption|]).
  exact (corrupt_store_breaks_start _ false _ H1 H2 H3).
Defined.

(** ** The page under any sequence of events *)

Section Runs.

(** An invariant of every enabled event is an invariant of every run. *)
Lemma run_invariant (Inv : Page → Prop) :
  (∀ e p, Inv p → enabled e p = true → Inv (fire e p)) →
  ∀ es p p', Inv p → run es p = Some p' → Inv p'.
Proof.
  intros Hstep es. induction es as [|e es IH]; simpl; intros p p' Hp.
  - now intros [= <-].
  - destruct (enabled e p) eqn:He; [|discriminate]. eauto.
Qed.

(** A reflexive and transitive relation kept by every enabled event
    relates the two ends of every run. *)
Lemma run_preorder (R : Page → Page → Prop) :
  (∀ p, R p p) → (∀ p q r, R p q → R q r → R p r) →
  (∀ e p, enabled e p = true → R p (fire e p)) →
  ∀ es p p', run es p = Some p' → R p p'.
Proof.
  intros Hrefl Htrans Hstep es. induction es as [|e es IH]; simpl; intros p p'.
  - intros [= <-]. apply Hrefl.
  - destruct (enabled e p) eqn:He; [|discriminate]. eauto.
Qed.

End Runs.

(** Unfolds the handler behind each event. *)
Ltac handlers :=
  cbn [fire enabled with_session openGeminiConsole session inflight classList
       windows];
  unfold generateRoadmap_begin, generateRoadmap_resume, saveRoadmap,
    loadRoadmap, toggleDarkMode.

Lemma mount_session (store : gmap string jsstring) (cl : list string) (p : Page) :
  mount store cl = Some p →
  App_init store (classList_contains "dark" cl) = Some (session p)
  ∧ inflight p = [] ∧ windows p = []
  ∧ classList p = dark_effect (isDarkMode (session p)) cl.
Proof.
  unfold mount. destruct (App_init store _) as [s|]; [|discriminate].
  intros [= <-]. now repeat split.
Qed.

Lemma App_init_fields (store : gmap string jsstring) (dark : bool) (s : Session) :
  App_init store dark = Some s →
  loading s = false ∧ roadmap s = [] ∧ error s = []
  ∧ apiKey s = init_apiKey store ∧ showApiInput s = init_showApiInput store
  ∧ isDarkMode s = dark ∧ localStorage s = store
  ∧ init_preferences store = Some (preferences s)
  ∧ init_savedRoadmaps store = Some (savedRoadmaps s).
Proof.
  unfold App_init.
  destruct (init_preferences store) as [p|]; [|discriminate].
  destruct (init_savedRoadmaps store) as [l|]; [|discriminate].
  intros [= <-]. now repeat split.
Qed.

Lemma busy_inv_step (e : Event) (p : Page) :
  busy_inv p → enabled e p = true → busy_inv (fire e p).
Proof.
  intros [Hlen Hiff] He. unfold busy_inv.
  destruct e; handlers; try (split; [exact Hlen | exact Hiff]).
  - (* ClickGenerate *)
    cbn [enabled] in He. apply andb_prop in He as [_ He].
    apply negb_true_iff, orb_false_iff in He as [_ Hl].
    assert (Hnil : inflight p = []).
    { destruct (inflight p) as [|k l] eqn:E; [reflexivity|].
      assert (loading (session p) = true) by (apply Hiff; discriminate).
      congruence. }
    repeat case_match; simplify_eq; cbn [session inflight with_session];
      cbn [loading setError setLoading]; rewrite ?Hnil; cbn.
    + split; [lia|]. split; [congruence | tauto].
    + split; [lia|]. split; [congruence | tauto].
    + split; [lia|]. split; [discriminate | reflexivity].
  - (* ClickSave *)
    case_match; cbn [session inflight loading setItem setSavedRoadmaps];
      now split.
  - (* ClickLoad *)
    case_match; cbn [session inflight loading setRoadmap setPreferences];
      now split.
  - (* Settle *)
    cbn [enabled] in He. apply bool_decide_eq_true in He as [k Hk].
    rewrite Hk. cbn [session inflight loading setLoading].
    destruct (inflight p) as [|k0 [|k1 l]] eqn:E; simpl in *; try lia.
    + discriminate Hk.
    + destruct i; [|discriminate Hk]. cbn.
      split; [lia|]. split; [discriminate | congruence].
Qed.

(** X9: starting from the first render, whatever the user does and
    however the remote calls settle, at most one remote call is in flight
    and the busy flag is on exactly while one is: the disabled Generate
    button keeps a second call from starting. *)
Theorem one_call_in_flight (store : gmap string jsstring) (cl : list string)
  (es : list Event) (p0 p : Page) :
  mount store cl = Some p0 → run es p0 = Some p →
  (length (inflight p) <= 1)%nat
  ∧ (loading (session p) = true ↔ inflight p ≠ [])
  ∧ (loading (session p) = true → enabled ClickGenerate p = false)
  ∧ (loading (session p) = true → ∀ now, enabled (ClickSave now) p = false).
Proof.
  intros Hm Hr.
  assert (H0 : busy_inv p0).
  { destruct (mount_session _ _ _ Hm) as (Hs & Hi & _).
    destruct (App_init_fields _ _ _ Hs) as (Hl & _).
    unfold busy_inv. rewrite Hi, Hl. split; [simpl; lia|].
    split; [discriminate | congruence]. }
  destruct (run_invariant busy_inv busy_inv_step es p0 p H0 Hr) as [Hlen Hiff].
  split; [exact Hlen|]. split; [exact Hiff|].
  split; [intros Hl | intros Hl now]; cbn [enabled]; rewrite Hl;
    cbn; now rewrite ?orb_true_r, ?andb_false_r.
Qed.

Lemma fresh_page_mounted : mount ∅ ["app"%string] = Some fresh_page.
Proof. reflexivity. Qed.

Lemma first_visit_runs : run first_visit fresh_page = Some visited_page.
Proof. vm_compute. reflexivity. Qed.

Lemma one_call_in_flight_witness :
  mount ∅ ["app"%string] = Some fresh_page
  ∧ run first_visit fresh_page = Some visited_page
  ∧ (length (inflight visited_page) <= 1)%nat
  ∧ (loading (session visited_page) = true ↔ inflight visited_page ≠ [])
  ∧ (loading (session visited_page) = true →
     enabled ClickGenerate visited_page = false)
  ∧ (loading (session visited_page) = true →
     ∀ now, enabled (ClickSave now) visited_page = false).
Proof.
  split; [exact fresh_page_mounted|]. split; [exact first_visit_runs|].
  exact (one_call_in_flight ∅ ["app"%string] first_visit fresh_page visited_page
           fresh_page_mounted first_visit_runs).
Defined.

Lemma form_inv_step (e : Event) (p : Page) :
  form_inv p → enabled e p = true → form_inv (fire e p).
Proof.
  intros [Hkey Herr] He. unfold form_inv.
  destruct e; handlers; cbn [enabled] in He;
    try (split; [exact Hkey | exact Herr]).
  - (* TypeApiKey *)
    cbn [showApiInput apiKey error setApiKey]. split; [congruence | exact Herr].
  - (* ClickContinue *)
    cbn [showApiInput apiKey error setShowApiInput].
    apply andb_prop in He as [_ He]. split; [|exact Herr].
    intros _ Hb. apply not_truthy_trim in Hb. rewrite Hb in He. discriminate.
  - (* ClickGenerate *)
    apply andb_prop in He as [Hs He]. apply negb_true_iff in Hs.
    apply negb_true_iff, orb_false_iff in He as [Hg _].
    rewrite (truthy_trim _ (Hkey Hs)), Hg.
    cbn [session showApiInput apiKey error setLoading setError].
    split; [exact Hkey | now left].
  - (* ClickApiKey *)
    cbn [showApiInput apiKey error setShowApiInput]. split; [discriminate | exact Herr].
  - (* ClickSave *)
    case_match; cbn [session showApiInput apiKey error setItem setSavedRoadmaps];
      now split.
  - (* ClickLoad *)
    case_match; cbn [session showApiInput apiKey error setRoadmap setPreferences];
      now split.
  - (* Settle *)
    case_match; [|now split].
    case_match; cbn [session showApiInput apiKey error setLoading setItem
                       setRoadmap console_error setError];
      (split; [exact Hkey | tauto]).
Qed.

(** X10: when the store holds no credential, or one that is not blank,
    the two validation messages of [generateRoadmap] are never shown: at
    every page the user can reach, the error is empty or the generic one,
    and whenever the Generate button is enabled a click on it passes both
    checks and starts the remote call. *)
Theorem validation_never_fails_on_page (store : gmap string jsstring)
  (cl : list string) (es : list Event) (p0 p : Page) :
  stored_key_usable store →
  mount store cl = Some p0 → run es p0 = Some p →
  (error (session p) = [] ∨ error (session p) = MSG_FAILED)
  ∧ (enabled ClickGenerate p = true →
     validation_passes (session p)
     ∧ fire ClickGenerate p
       = {| session := setLoading true (setError [] (session p));
            classList := classList p;
            inflight := inflight p ++ [capture (session p)];
            windows := windows p |}).
Proof.
  intros Hstore Hm Hr.
  assert (H0 : form_inv p0).
  { destruct (mount_session _ _ _ Hm) as (Hs & _).
    destruct (App_init_fields _ _ _ Hs) as (_ & _ & He & Hk & Hsh & _).
    unfold form_inv. rewrite He, Hk, Hsh. split; [|now left].
    unfold init_showApiInput, init_apiKey.
    destruct (store !! "geminiApiKey"%string) as [k|] eqn:E; [|discriminate].
    destruct (Hstore k E) as [-> | Hk']; [discriminate|].
    now rewrite (not_blank_truthy _ Hk'). }
  destruct (run_invariant form_inv form_inv_step es p0 p H0 Hr) as [Hkey Herr].
  split; [exact Herr|]. intros He. cbn [enabled] in He.
  apply andb_prop in He as [Hs He]. apply negb_true_iff in Hs.
  apply negb_true_iff, orb_false_iff in He as [Hg _].
  assert (Hv : validation_passes (session p)).
  { split; [exact (Hkey Hs)|]. intros Hb. apply not_truthy_trim in Hb. congruence. }
  split; [exact Hv|]. cbn [fire]. now rewrite (begin_passes _ Hv).
Qed.

Lemma empty_store_usable : stored_key_usable ∅.
Proof. intros k H. discriminate H. Qed.

Lemma validation_never_fails_on_page_witness :
  stored_key_usable ∅
  ∧ mount ∅ ["app"%string] = Some fresh_page
  ∧ run first_visit fresh_page = Some visited_page
  ∧ (error (session visited_page) = [] ∨ error (session visited_page) = MSG_FAILED)
  ∧ (enabled ClickGenerate visited_page = true →
     validation_passes (session visited_page)
     ∧ fire ClickGenerate visited_page
       = {| session := setLoading true (setError [] (session visited_page));
            classList := classList visited_page;
            inflight := inflight visited_page ++ [capture (session visited_page)];
            windows := windows visited_page |}).
Proof.
  split; [exact empty_store_usable|].
  split; [exact fresh_page_mounted|]. split; [exact first_visit_runs|].
  exact (validation_never_fails_on_page ∅ ["app"%string] first_visit fresh_page
           visited_page empty_store_usable fresh_page_mounted first_visit_runs).
Defined.

(** ** The saved list and the store under any sequence of events *)

Lemma fire_saved (e : Event) (p : Page) :
  enabled e p = true →
  ∃ added,
    savedRoadmaps (session (fire e p)) = savedRoadmaps (session p) ++ added
    ∧ length added = if is_save e then 1%nat else 0%nat.
Proof.
  intros He.
  destruct e; handlers; cbn [is_save];
    try (exists []; split; [now rewrite app_nil_r | reflexivity]).
  - (* ClickGenerate *)
    exists []. repeat case_match; simplify_eq; now rewrite app_nil_r.
  - (* ClickSave *)
    cbn [enabled] in He. apply andb_prop in He as [Hr _].
    apply Nat.ltb_lt in Hr.
    destruct (Nat.eqb_spec (length (roadmap (session p))) 0) as [E|_]; [lia|].
    eexists [_]. split; reflexivity.
  - (* ClickLoad *)
    exists []. case_match; now rewrite app_nil_r.
  - (* Settle *)
    exists []. repeat case_match; now rewrite app_nil_r.
Qed.


(** X11: the saved list only grows, and only by clicks on Save: after any
    sequence of events it is the list before, followed by one new entry
    for each click on Save.  Nothing removes, reorders or rewrites an
    entry, and the guard of [saveRoadmap] never fires, because the button
    is rendered only while a roadmap is shown. *)
Theorem saved_list_append_only (es : list Event) (p p' : Page) :
  run es p = Some p' →
  ∃ added,
    savedRoadmaps (session p') = savedRoadmaps (session p) ++ added
    ∧ length added = saves es.
Proof.
  revert p. induction es as [|e es IH]; simpl; intros p.
  - intros [= <-]. exists []. now rewrite app_nil_r.
  - destruct (enabled e p) eqn:He; [|discriminate]. intros Hr.
    destruct (fire_saved e p He) as (a1 & E1 & L1).
    destruct (IH _ Hr) as (a2 & E2 & L2).
    exists (a1 ++ a2). rewrite E2, E1, <- app_assoc. split; [reflexivity|].
    rewrite length_app, L1, L2. reflexivity.
Qed.

Lemma saved_list_append_only_witness :
  run first_visit fresh_page = Some visited_page
  ∧ ∃ added,
      savedRoadmaps (session visited_page)
      = savedRoadmaps (session fresh_page) ++ added
      ∧ length added = saves first_visit.
Proof.
  split; [exact first_visit_runs|].
  exact (saved_list_append_only first_visit fresh_page visited_page first_visit_runs).
Defined.

Lemma fire_store (e : Event) (p : Page) (key : string) :
  localStorage (session (fire e p)) !! key = localStorage (session p) !! key
  ∨ (is_save e = true ∧ key = "savedRoadmaps"%string)
  ∨ (is_settle e = true
     ∧ (key = "lastPreferences"%string ∨ key = "geminiApiKey"%string)).
Proof.
  destruct e; handlers; cbn [is_save is_settle]; try (now left).
  - (* ClickGenerate *) left. repeat case_match; simplify_eq; reflexivity.
  - (* ClickSave *)
    case_match; [now left|].
    cbn [session localStorage setItem setSavedRoadmaps].
    destruct (decide (key = "savedRoadmaps"%string)) as [->|Hk]; [now right; left|].
    left. now rewrite lookup_insert_ne.
  - (* ClickLoad *) left. now case_match.
  - (* Settle *)
    case_match; [|now left]. case_match; [now left|].
    cbn [session localStorage setLoading setItem setRoadmap].
    destruct (decide (key = "geminiApiKey"%string)) as [->|Hk];
      [right; right; split; [reflexivity | now right]|].
    destruct (decide (key = "lastPreferences"%string)) as [->|Hk'];
      [right; right; split; [reflexivity | now left]|].
    left. now rewrite !lookup_insert_ne.
Qed.

(** X12: what the component writes to the store.  Over any sequence of
    events a key other than the three it uses keeps its value; the key
    [savedRoadmaps] changes only by a click on Save; and [lastPreferences]
    and [geminiApiKey] change only when a remote call settles, so typing a
    credential and leaving the form does not store it. *)
Theorem store_writes (es : list Event) (p p' : Page) :
  run es p = Some p' →
  (∀ key : string, key ∉ APP_KEYS →
                   localStorage (session p') !! key = localStorage (session p) !! key)
  ∧ (saves es = 0%nat →
     localStorage (session p') !! "savedRoadmaps"%string
     = localStorage (session p) !! "savedRoadmaps"%string)
  ∧ (forallb (fun e => negb (is_settle e)) es = true →
     localStorage (session p') !! "lastPreferences"%string
     = localStorage (session p) !! "lastPreferences"%string
     ∧ localStorage (session p') !! "geminiApiKey"%string
       = localStorage (session p) !! "geminiApiKey"%string).
Proof.
  revert p. induction es as [|e es IH]; simpl; intros p.
  - intros [= <-]. now repeat split.
  - destruct (enabled e p) eqn:He; [|discriminate]. intros Hr.
    destruct (IH _ Hr) as (IH1 & IH2 & IH3).
    split; [|split].
    + intros key Hk. rewrite (IH1 key Hk).
      destruct (fire_store e p key) as [H | [[_ ->] | [_ [-> | ->]]]];
        [exact H | | | ]; exfalso; apply Hk; unfold APP_KEYS;
        apply list_elem_of_In; simpl; tauto.
    + intros Hs. destruct (is_save e) eqn:Es; [discriminate|].
      rewrite (IH2 Hs).
      destruct (fire_store e p "savedRoadmaps") as [H | [[H _] | [_ [H | H]]]];
        [exact H | congruence | discriminate | discriminate].
    + intros Hall. apply andb_prop in Hall as [Hs Hall].
      apply negb_true_iff in Hs. destruct (IH3 Hall) as [IHa IHb].
      rewrite IHa, IHb. split.
      * destruct (fire_store e p "lastPreferences") as [H | [[_ H] | [H _]]];
          [exact H | discriminate | congruence].
      * destruct (fire_store e p "geminiApiKey") as [H | [[_ H] | [H _]]];
          [exact H | discriminate | congruence].
Qed.

Lemma store_writes_witness :
  run first_visit fresh_page = Some visited_page
  ∧ (∀ key : string, key ∉ APP_KEYS →
                     localStorage (session visited_page) !! key
                     = localStorage (session fresh_page) !! key)
  ∧ (saves first_visit = 0%nat →
     localStorage (session visited_page) !! "savedRoadmaps"%string
     = localStorage (session fresh_page) !! "savedRoadmaps"%string)
  ∧ (forallb (fun e => negb (is_settle e)) first_visit = true →
     localStorage (session visited_page) !! "lastPreferences"%string
     = localStorage (session fresh_page) !! "lastPreferences"%string
     ∧ localStorage (session visited_page) !! "geminiApiKey"%string
       = localStorage (session fresh_page) !! "geminiApiKey"%string).
Proof.
  split; [exact first_visit_runs|].
  exact (store_writes first_visit fresh_page visited_page first_visit_runs).
Defined.

(** ** The display mode *)

Section Dark.

Lemma contains_dark_effect (b : bool) (cl : list string) :
  classList_contains "dark" (dark_effect b cl) = b.
Proof.
  unfold classList_contains, dark_effect, classList_add, classList_remove.
  destruct b.
  - apply bool_decide_eq_true. case_bool_decide as H; [exact H|].
    apply elem_of_app. right. now apply list_elem_of_singleton.
  - apply bool_decide_eq_false. intros H.
    apply list_elem_of_filter in H as [H _]. now apply H.
Qed.

Lemma others_dark_effect (b : bool) (cl : list string) (t : string) :
  t ≠ "dark"%string → t ∈ dark_effect b cl ↔ t ∈ cl.
Proof.
  intros Ht. unfold dark_effect, classList_add, classList_remove. destruct b.
  - case_bool_decide; [reflexivity|]. rewrite elem_of_app, list_elem_of_singleton.
    tauto.
  - rewrite list_elem_of_filter. tauto.
Qed.

(** The effect of the first render finds the class list as the initialiser
    read it and leaves it alone. *)
Lemma dark_effect_mount (cl : list string) :
  dark_effect (classList_contains "dark" cl) cl = cl.
Proof.
  unfold dark_effect, classList_contains, classList_add, classList_remove.
  case_bool_decide as H.
  - try rewrite bool_decide_eq_true_2 by assumption; reflexivity.
  - induction cl as [|c cl IH]; [reflexivity|].
    rewrite filter_cons. apply not_elem_of_cons in H as [Hc Hcl].
    rewrite decide_True by congruence. now rewrite IH.
Qed.

Lemma dark_inv_step (cl : list string) (e : Event) (p : Page) :
  dark_inv cl p → enabled e p = true → dark_inv cl (fire e p).
Proof.
  intros [Hd Ho] _. unfold dark_inv.
  destruct e; handlers; try (split; [exact Hd | exact Ho]).
  - repeat case_match; simplify_eq; (split; [exact Hd | exact Ho]).
  - case_match; (split; [exact Hd | exact Ho]).
  - case_match; (split; [exact Hd | exact Ho]).
  - cbn [session classList isDarkMode setIsDarkMode].
    split; [apply contains_dark_effect|].
    intros t Ht. rewrite (others_dark_effect _ _ _ Ht). now apply Ho.
  - repeat case_match; (split; [exact Hd | exact Ho]).
Qed.

End Dark.

(** X13: the display mode and the class [dark] of the document element
    never disagree.  The first render leaves the class list as it found it;
    after any sequence of events the list holds [dark] exactly when
    [isDarkMode] is set, and holds the other classes it held at the
    start. *)
Theorem dark_class_follows_mode (store : gmap string jsstring)
  (cl : list string) (es : list Event) (p0 p : Page) :
  mount store cl = Some p0 → run es p0 = Some p →
  classList p0 = cl
  ∧ classList_contains "dark" (classList p) = isDarkMode (session p)
  ∧ ∀ t : string, t ≠ "dark"%string → (t ∈ classList p ↔ t ∈ cl).
Proof.
  intros Hm Hr.
  destruct (mount_session _ _ _ Hm) as (Hs & _ & _ & Hc).
  destruct (App_init_fields _ _ _ Hs) as (_ & _ & _ & _ & _ & Hd & _).
  assert (H0 : classList p0 = cl) by (rewrite Hc, Hd; apply dark_effect_mount).
  split; [exact H0|].
  apply (run_invariant (dark_inv cl) (dark_inv_step cl) es p0 p); [|exact Hr].
  split; [now rewrite H0, Hd | now rewrite H0].
Qed.

Lemma dark_class_follows_mode_witness :
  mount ∅ ["app"%string] = Some fresh_page
  ∧ run first_visit fresh_page = Some visited_page
  ∧ classList fresh_page = ["app"%string]
  ∧ classList_contains "dark" (classList visited_page)
    = isDarkMode (session visited_page)
  ∧ ∀ t : string, t ≠ "dark"%string →
                  (t ∈ classList visited_page ↔ t ∈ ["app"%string]).
Proof.
  split; [exact fresh_page_mounted|]. split; [exact first_visit_runs|].
  exact (dark_class_follows_mode ∅ ["app"%string] first_visit fresh_page
           visited_page fresh_page_mounted first_visit_runs).
Defined.

(** X14: toggling the display mode twice gives back the session as it
    was, and a class list with the same classes. *)
Theorem toggle_twice (p : Page) :
  let p2 := fire ClickToggle (fire ClickToggle p) in
  session p2 = session p
  ∧ (classList_contains "dark" (classList p) = isDarkMode (session p) →
     ∀ t : string, t ∈ classList p2 ↔ t ∈ classList p).
Proof.
  cbn [fire session classList]. unfold toggleDarkMode.
  cbn [isDarkMode setIsDarkMode]. rewrite negb_involutive. split.
  { destruct (session p). reflexivity. }
  intros Hd t. destruct (decide (t = "dark"%string)) as [->|Ht].
  - pose proof (contains_dark_effect (isDarkMode (session p))
                  (dark_effect (negb (isDarkMode (session p))) (classList p))) as H.
    unfold classList_contains in H, Hd.
    destruct (isDarkMode (session p)).
    + apply bool_decide_eq_true in H, Hd. tauto.
    + apply bool_decide_eq_false in H, Hd. tauto.
  - now rewrite !others_dark_effect.
Qed.

(** ** Values through [JSON.stringify] and [JSON.parse] *)

Section RoundTrip.

Import Stringify.

(** Induction on JSON values, through their lists. *)
Lemma json_ind' (P : json → Prop) :
  P JNull → (∀ b, P (JBool b)) → (∀ n, P (JNumber n)) → (∀ s, P (JString s)) →
  (∀ items, Forall P items → P (JArray items)) →
  (∀ members, Forall (fun kv => P (snd kv)) members → P (JObject members)) →
  ∀ v, P v.
Proof.
  intros Hnull Hbool Hnum Hstr Harr Hobj.
  fix IH 1. intros [ | b | n | s | items | members ].
  - exact Hnull.
  - apply Hbool.
  - apply Hnum.
  - apply Hstr.
  - apply Harr. induction items as [|x xs IHxs]; constructor; [apply IH | exact IHxs].
  - apply Hobj. induction members as [|[k x] ms IHms]; constructor;
      [apply IH | exact IHms].
Qed.

Lemma stringify_opener (v : json) :
  number_free v = true → ∃ c t, stringify v = c :: t ∧ opener c.
Proof.
  unfold opener. destruct v as [ | [|] | n | s | items | members ]; cbn;
    intros H; try discriminate; eexists _, _; (split; [reflexivity|]); tauto.
Qed.

Lemma opener_skip (c : N) (t : jsstring) :
  opener c → JSON.skip_ws (c :: t) = c :: t ∧ (c =? 0x5D) = false.
Proof.
  intros [-> | [-> | [-> | [-> | [-> | ->]]]]]; now split.
Qed.

(** One element followed by a comma, and the last element. *)
Lemma parse_elements_more (fuel : nat) (s more : jsstring) (v : json) :
  JSON.parse_value fuel s = JSON.Ok v (0x2C :: more) →
  JSON.parse_elements (S fuel) s
  = match JSON.parse_elements fuel more with
    | JSON.Ok vs rest => JSON.Ok (v :: vs) rest
    | JSON.Bad => JSON.Bad
    | JSON.Starved => JSON.Starved
    end.
Proof. intros H. cbn [JSON.parse_elements]. now rewrite H. Qed.

Lemma parse_elements_last (fuel : nat) (s rest : jsstring) (v : json) :
  JSON.parse_value fuel s = JSON.Ok v (0x5D :: rest) →
  JSON.parse_elements (S fuel) s = JSON.Ok [v] rest.
Proof. intros H. cbn [JSON.parse_elements]. now rewrite H. Qed.

Lemma parse_members_step (fuel : nat) (k vt : jsstring) :
  JSON.parse_members (S fuel) (quote k ++ 0x3A :: vt)
  = match JSON.parse_value fuel vt with
    | JSON.Ok v rest =>
        match JSON.skip_ws rest with
        | [] => JSON.Bad
        | c :: r =>
            if c =? 0x2C then
              match JSON.parse_members fuel r with
              | JSON.Ok ms rest' => JSON.Ok ((k, v) :: ms) rest'
              | JSON.Bad => JSON.Bad
              | JSON.Starved => JSON.Starved
              end
            else if c =? 0x7D then JSON.Ok [(k, v)] r
            else JSON.Bad
        end
    | JSON.Bad => JSON.Bad
    | JSON.Starved => JSON.Starved
    end.
Proof.
  cbn [JSON.parse_members]. unfold quote at 1. cbn [app].
  change (JSON.skip_ws (0x22 :: ?t)) with (0x22 :: t). cbv beta iota.
  change (0x22 =? 0x22) with true. cbv iota.
  rewrite <- app_assoc. cbn [app]. rewrite scan_quote_chars.
  change (JSON.skip_ws (0x3A :: ?t)) with (0x3A :: t). cbv beta iota.
  change (0x3A =? 0x3A) with true. cbv iota. reflexivity.
Qed.

Lemma parse_value_array (fuel : nat) (c : N) (t : jsstring) :
  opener c →
  JSON.parse_value (S fuel) (0x5B :: c :: t)
  = match JSON.parse_elements fuel (c :: t) with
    | JSON.Ok vs rest => JSON.Ok (JArray vs) rest
    | JSON.Bad => JSON.Bad
    | JSON.Starved => JSON.Starved
    end.
Proof.
  intros Hc. destruct (opener_skip c t Hc) as [Hs Hb].
  cbn [JSON.parse_value].
  change (JSON.skip_ws (0x5B :: ?t)) with (0x5B :: t). cbv beta iota.
  change (0x5B =? 0x7B) with false. change (0x5B =? 0x5B) with true. cbv iota.
  now rewrite Hs, Hb.
Qed.

(** Keys in property order are defined one after the other. *)
Lemma get_none_before (k : jsstring) (o : list (jsstring * json)) :
  forallb (fun k' => key_before k' k) (map fst o) = true → JSON.get k o = None.
Proof.
  induction o as [|[k' v'] o IH]; [reflexivity|]. cbn [map fst forallb JSON.get].
  intros H. apply andb_prop in H as [Hk Ho]. rewrite (IH Ho).
  unfold JSON.key_eqb. case_bool_decide as E; [|reflexivity]. subst k'.
  unfold key_before in Hk. destruct (JSON.array_index k).
  - apply N.ltb_lt in Hk. lia.
  - unfold JSON.key_eqb in Hk. now rewrite bool_decide_eq_true_2 in Hk.
Qed.

Lemma insert_index_after (n : N) (k : jsstring) (v : json)
  (o : list (jsstring * json)) :
  JSON.array_index k = Some n →
  forallb (fun k' => key_before k' k) (map fst o) = true →
  JSON.insert_index n k v o = o ++ [(k, v)].
Proof.
  intros Hk. induction o as [|[k' v'] o IH]; [reflexivity|].
  cbn [map fst forallb JSON.insert_index app]. intros H.
  apply andb_prop in H as [Hb Ho]. unfold key_before in Hb. rewrite Hk in Hb.
  destruct (JSON.array_index k') as [m|]; [|discriminate].
  rewrite Hb. now rewrite (IH Ho).
Qed.

Lemma define_after (o : list (jsstring * json)) (k : jsstring) (v : json) :
  forallb (fun k' => key_before k' k) (map fst o) = true →
  JSON.define o (k, v) = o ++ [(k, v)].
Proof.
  intros H. unfold JSON.define. rewrite (get_none_before _ _ H).
  destruct (JSON.array_index k) as [n|] eqn:Hk; [|reflexivity].
  now apply insert_index_after.
Qed.

Lemma keys_in_order_app (a b : list jsstring) :
  keys_in_order (a ++ b) = true →
  keys_in_order b = true
  ∧ ∀ k, k ∈ b → forallb (fun k' => key_before k' k) a = true.
Proof.
  induction a as [|x a IH]; cbn [app keys_in_order]; intros H.
  - split; [exact H | reflexivity].
  - apply andb_prop in H as [Hx Ha]. destruct (IH Ha) as [Hb Hall].
    split; [exact Hb|]. intros k Hk. cbn [forallb].
    rewrite (Hall k Hk), andb_true_r.
    rewrite forallb_forall in Hx. apply Hx, list_elem_of_In, elem_of_app. now right.
Qed.

Lemma fold_define_ordered (ms acc : list (jsstring * json)) :
  keys_in_order (map fst (acc ++ ms)) = true →
  fold_left JSON.define ms acc = acc ++ ms.
Proof.
  revert acc. induction ms as [|[k v] ms IH]; intros acc H; cbn [fold_left].
  - now rewrite app_nil_r.
  - rewrite define_after.
    + rewrite IH; rewrite <- app_assoc; [reflexivity | exact H].
    + rewrite map_app in H. destruct (keys_in_order_app _ _ H) as [_ Hall].
      apply Hall. cbn [map fst]. now left.
Qed.

Lemma object_of_ordered_members (ms : list (jsstring * json)) :
  keys_in_order (map fst ms) = true → JSON.object_of_members ms = JObject ms.
Proof.
  intros H. unfold JSON.object_of_members. now rewrite fold_define_ordered.
Qed.

Lemma join_comma_map {A} (f : A → jsstring) (x y : A) (ys : list A) :
  join_comma (map f (x :: y :: ys)) = f x ++ 0x2C :: join_comma (map f (y :: ys)).
Proof. reflexivity. Qed.

(** The text of a storable value parses to the value, given fuel for its
    size; so do a non-empty list of elements and a non-empty list of
    members, up to the closing bracket or brace. *)
Lemma parse_stringify_fuel (fuel : nat) :
  (∀ v rest, (size v <= fuel)%nat → number_free v = true → ordered v = true →
             JSON.parse_value fuel (stringify v ++ rest) = JSON.Ok v rest)
  ∧ (∀ items rest,
       items ≠ [] → (list_sum (map (fun x => S (size x)) items) <= fuel)%nat →
       forallb number_free items = true → forallb ordered items = true →
       JSON.parse_elements fuel (join_comma (map stringify items) ++ 0x5D :: rest)
       = JSON.Ok items rest)
  ∧ (∀ ms rest,
       ms ≠ [] → (list_sum (map (fun kv => S (size (snd kv))) ms) <= fuel)%nat →
       forallb (fun kv => number_free (snd kv)) ms = true →
       forallb (fun kv => ordered (snd kv)) ms = true →
       JSON.parse_members fuel (join_comma (map member_text ms) ++ 0x7D :: rest)
       = JSON.Ok ms rest).
Proof.
  induction fuel as [|fuel (IHv & IHe & IHm)].
  { repeat split.
    - intros v rest H. destruct v; simpl in H; lia.
    - intros [|x xs] rest Hne H; [contradiction | simpl in H; lia].
    - intros [|x xs] rest Hne H; [contradiction | simpl in H; lia]. }
  repeat split.
  - (* a value *)
    intros v rest Hs Hn Ho.
    destruct v as [ | [|] | n | s | items | members ]; try discriminate Hn;
      try reflexivity.
    + apply parse_value_quote.
    + (* an array *)
      destruct items as [|x xs]; [reflexivity|].
      cbn [stringify]. cbn [app]. rewrite <- app_assoc. cbn [app].
      cbn [number_free ordered] in Hn, Ho. simpl in Hs.
      assert (Hx : number_free x = true) by (cbn in Hn; now apply andb_prop in Hn).
      destruct (stringify_opener x Hx) as (c & t & Ex & Hc).
      assert (Et : ∃ t', join_comma (map stringify (x :: xs)) ++ 0x5D :: rest = c :: t').
      { cbn [map]. destruct (map stringify xs); cbn [join_comma];
          rewrite Ex; now eexists. }
      destruct Et as (t' & Et). rewrite Et, (parse_value_array _ _ _ Hc), <- Et.
      rewrite (IHe (x :: xs) rest); [reflexivity | discriminate | simpl; lia | exact Hn | exact Ho].
    + (* an object *)
      destruct members as [|[k x] ms]; [reflexivity|].
      cbn [stringify]. cbn [app]. rewrite <- app_assoc. cbn [app].
      cbn [number_free ordered] in Hn, Ho. simpl in Hs.
      apply andb_prop in Ho as [Hk Ho].
      change (map (fun kv => quote (fst kv) ++ 0x3A :: stringify (snd kv)) ((k, x) :: ms))
        with (map member_text ((k, x) :: ms)).
      assert (Et : ∃ t', join_comma (map member_text ((k, x) :: ms)) ++ 0x7D :: rest
                         = quote k ++ t').
      { cbn [map]. unfold member_text at 1. cbn [fst snd].
        destruct (map member_text ms); cbn [join_comma];
          rewrite <- ?app_assoc; now eexists. }
      destruct Et as (t' & Et). rewrite Et, parse_value_object, <- Et.
      rewrite (IHm ((k, x) :: ms) rest); [|discriminate | simpl; lia | exact Hn | exact Ho].
      now rewrite object_of_ordered_members.
  - (* elements *)
    intros [|x xs] rest Hne Hs Hn Ho; [contradiction|].
    simpl in Hs. cbn [forallb] in Hn, Ho.
    apply andb_prop in Hn as [Hnx Hnxs]. apply andb_prop in Ho as [Hox Hoxs].
    destruct xs as [|y ys].
    + cbn [map join_comma]. apply parse_elements_last.
      apply IHv; [lia | exact Hnx | exact Hox].
    + rewrite join_comma_map, <- app_assoc. cbn [app].
      rewrite (parse_elements_more fuel _ (join_comma (map stringify (y :: ys)) ++ 0x5D :: rest) x).
      * rewrite (IHe (y :: ys) rest); [reflexivity | discriminate | | exact Hnxs | exact Hoxs].
        simpl in Hs |- *. lia.
      * apply IHv; [lia | exact Hnx | exact Hox].
  - (* members *)
    intros [|[k x] ms] rest Hne Hs Hn Ho; [contradiction|].
    simpl in Hs. cbn [forallb fst snd] in Hn, Ho.
    apply andb_prop in Hn as [Hnx Hnms]. apply andb_prop in Ho as [Hox Homs].
    destruct ms as [|m ms'].
    + cbn [map join_comma]. unfold member_text. cbn [fst snd].
      rewrite <- app_assoc. cbn [app]. rewrite parse_members_step.
      rewrite IHv; [reflexivity | lia | exact Hnx | exact Hox].
    + rewrite join_comma_map, <- app_assoc. cbn [app].
      unfold member_text at 1. cbn [fst snd]. rewrite <- app_assoc. cbn [app].
      rewrite parse_members_step.
      rewrite IHv; [|lia | exact Hnx | exact Hox].
      change (JSON.skip_ws (0x2C :: ?t)) with (0x2C :: t). cbv beta iota.
      change (0x2C =? 0x2C) with true. cbv iota.
      rewrite (IHm (m :: ms') rest); [reflexivity | discriminate | | exact Hnms | exact Homs].
      simpl in Hs |- *. lia.
Qed.

End RoundTrip.

Section RoundTripTop.

Import Stringify.

Lemma join_comma_size {A} (f : A → nat) (g : A → jsstring) (l : list A) :
  Forall (fun x => (f x <= length (g x))%nat) l →
  (list_sum (map (fun x => S (f x)) l) <= S (length (join_comma (map g l))))%nat.
Proof.
  induction 1 as [|x l Hx Hl IH]; [simpl; lia|].
  destruct l as [|y ys].
  - simpl. lia.
  - rewrite join_comma_map. change (map (fun x => S (f x)) (x :: y :: ys))
      with (S (f x) :: map (fun x => S (f x)) (y :: ys)).
    cbn [list_sum fold_right] in *. rewrite length_app. cbn [length]. 
    change (fold_right Nat.add 0%nat (map (fun x => S (f x)) (y :: ys)))
      with (list_sum (map (fun x => S (f x)) (y :: ys))).
    lia.
Qed.

Lemma size_le_length (v : json) :
  number_free v = true → (size v <= length (stringify v))%nat.
Proof.
  induction v as [ | b | n | s | items IH | members IH ] using json_ind'; intros Hn.
  - simpl. lia.
  - destruct b; simpl; lia.
  - discriminate Hn.
  - unfold stringify, quote. simpl. lia.
  - cbn [size stringify length]. rewrite length_app. cbn [length].
    cbn [number_free] in Hn. rewrite forallb_forall in Hn.
    pose proof (join_comma_size size stringify items) as H.
    assert (Hall : Forall (fun x => (size x <= length (stringify x))%nat) items).
    { rewrite Forall_forall in IH |- *. intros x Hx.
      apply IH; [exact Hx|]. apply Hn. now apply list_elem_of_In. }
    specialize (H Hall). lia.
  - cbn [size stringify length]. rewrite length_app. cbn [length].
    cbn [number_free] in Hn. rewrite forallb_forall in Hn.
    change (map (fun kv => quote (fst kv) ++ 0x3A :: stringify (snd kv)) members)
      with (map member_text members).
    pose proof (join_comma_size (fun kv => size (snd kv)) member_text members) as H.
    assert (Hall : Forall (fun kv : jsstring * json =>
                             (size (snd kv) <= length (member_text kv))%nat) members).
    { rewrite Forall_forall in IH |- *. intros kv Hkv.
      specialize (IH kv Hkv (Hn kv (proj1 (list_elem_of_In _ _) Hkv))).
      unfold member_text. rewrite length_app. cbn [length]. lia. }
    specialize (H Hall). lia.
Qed.

(** The text of a storable value parses back to the value. *)
Lemma parse_stringify (v : json) :
  storable v = true → JSON.parse (stringify v) = Some v.
Proof.
  unfold storable. intros H. apply andb_prop in H as [Hn Ho].
  unfold JSON.parse. pose proof (size_le_length v Hn) as Hs.
  destruct (parse_stringify_fuel (2 * length (stringify v) + 2)) as (Hv & _).
  specialize (Hv v [] ltac:(lia) Hn Ho). rewrite app_nil_r in Hv.
  now rewrite Hv.
Qed.

End RoundTripTop.

(** ** The saved list through the store *)

Section SavedList.

Lemma forallb_storable (l : list json) :
  storable_steps l →
  forallb number_free l = true ∧ forallb ordered l = true.
Proof.
  induction 1 as [|v l Hv _ [IHn IHo]]; [now split|].
  unfold storable in Hv. apply andb_prop in Hv as [Hn Ho].
  cbn [forallb]. now rewrite Hn, Ho, IHn, IHo.
Qed.

Lemma storable_json_of_saved (r : SavedRoadmap.t) :
  storable_steps (SavedRoadmap.steps r) → storable (json_of_saved r) = true.
Proof.
  intros H. destruct (forallb_storable _ H) as [Hn Ho].
  unfold storable, json_of_saved, json_of_preferences.
  cbn [number_free ordered forallb snd]. rewrite Hn, Ho. reflexivity.
Qed.

Lemma saved_of_json_of_saved (r : SavedRoadmap.t) :
  saved_of_json (json_of_saved r) = Some r.
Proof. destruct r as [[g t e d] st c]. reflexivity. Qed.

Lemma mapM_saved (l : list SavedRoadmap.t) :
  mapM saved_of_json (map json_of_saved l) = Some l.
Proof.
  induction l as [|r l IH]; [reflexivity|].
  cbn [map mapM]. rewrite saved_of_json_of_saved, IH. reflexivity.
Qed.

Lemma storable_saved_array (l : list SavedRoadmap.t) :
  storable_saved l → storable (JArray (map json_of_saved l)) = true.
Proof.
  intros Hl. unfold storable. cbn [number_free ordered].
  induction Hl as [|r l Hr _ IH]; [reflexivity|]. cbn [map forallb].
  pose proof (storable_json_of_saved r Hr) as H. unfold storable in H.
  apply andb_prop in H as [-> ->]. exact IH.
Qed.

(** What [saveRoadmap] writes is read back by the initialiser as the list
    it was written from. *)
Lemma init_savedRoadmaps_stored (store : gmap string jsstring)
  (l : list SavedRoadmap.t) :
  storable_saved l →
  store !! "savedRoadmaps"%string
  = Some (Stringify.stringify (JArray (map json_of_saved l))) →
  init_savedRoadmaps store = Some l.
Proof.
  intros Hl Hs. unfold init_savedRoadmaps. rewrite Hs.
  change (JS.truthy (Stringify.stringify (JArray (map json_of_saved l)))) with true.
  cbv iota. rewrite (parse_stringify _ (storable_saved_array l Hl)).
  cbn [mbind option_bind]. apply mapM_saved.
Qed.

End SavedList.

Lemma save_shape (now : jsstring) (s : Session) :
  roadmap s ≠ [] →
  savedRoadmaps (saveRoadmap now s)
  = savedRoadmaps s
    ++ [ {| SavedRoadmap.preferences := preferences s;
            SavedRoadmap.steps := roadmap s;
            SavedRoadmap.createdAt := now |} ].
Proof.
  intros Hne. unfold saveRoadmap.
  destruct (roadmap s); [contradiction | reflexivity].
Qed.

Lemma save_written (now : jsstring) (s : Session) :
  roadmap s ≠ [] →
  localStorage (saveRoadmap now s) !! "savedRoadmaps"%string
  = Some (Stringify.stringify
            (JArray (map json_of_saved (savedRoadmaps (saveRoadmap now s))))).
Proof.
  intros Hne. unfold saveRoadmap.
  destruct (roadmap s); [contradiction | apply lookup_insert_eq].
Qed.


(** X15: a saved list survives a restart.  When the steps of the roadmap
    and of the entries saved before hold no number and have their keys in
    property order, the text that [saveRoadmap] writes under
    [savedRoadmaps] is read back by the initialiser of the next session as
    exactly the new list: every entry with its preferences, its steps and
    its time stamp. *)
Theorem saved_list_survives_restart (now : jsstring) (s : Session) :
  roadmap s ≠ [] →
  storable_steps (roadmap s) → storable_saved (savedRoadmaps s) →
  init_savedRoadmaps (localStorage (saveRoadmap now s))
  = Some (savedRoadmaps (saveRoadmap now s))
  ∧ savedRoadmaps (saveRoadmap now s)
    = savedRoadmaps s
      ++ [ {| SavedRoadmap.preferences := preferences s;
              SavedRoadmap.steps := roadmap s;
              SavedRoadmap.createdAt := now |} ].
Proof.
  intros Hne Hr Hs. split.
  - apply init_savedRoadmaps_stored; [|now apply save_written].
    rewrite (save_shape now s Hne).
    apply Forall_app. split; [exact Hs|]. constructor; [exact Hr | constructor].
  - now apply save_shape.
Qed.

Lemma held_steps_storable : storable_steps (roadmap held_session).
Proof. repeat constructor. Qed.

Lemma saved_list_survives_restart_witness :
  roadmap held_session ≠ []
  ∧ storable_steps (roadmap held_session)
  ∧ storable_saved (savedRoadmaps held_session)
  ∧ init_savedRoadmaps
      (localStorage (saveRoadmap (lit "2025-01-01T00:00:00.000Z") held_session))
    = Some (savedRoadmaps (saveRoadmap (lit "2025-01-01T00:00:00.000Z") held_session))
  ∧ savedRoadmaps (saveRoadmap (lit "2025-01-01T00:00:00.000Z") held_session)
    = savedRoadmaps held_session
      ++ [ {| SavedRoadmap.preferences := preferences held_session;
              SavedRoadmap.steps := roadmap held_session;
              SavedRoadmap.createdAt := lit "2025-01-01T00:00:00.000Z" |} ].
Proof.
  assert (H1 : roadmap held_session ≠ []) by discriminate.
  assert (H3 : storable_saved (savedRoadmaps held_session)) by constructor.
  split; [exact H1|]. split; [exact held_steps_storable|]. split; [exact H3|].
  exact (saved_list_survives_restart (lit "2025-01-01T00:00:00.000Z") held_session
           H1 held_steps_storable H3).
Defined.

(** ** What [JSON.parse] returns has its keys in property order *)

Section ParseOrdered.






End ParseOrdered.

Section DefineOrdered.













End DefineOrdered.

(** ** The saved list of the page and the store *)

Section Mirror.











End Mirror.




(** ** Editing while a call is in flight *)

Lemma awaiting_step (k : Closure) (e : Event) (p : Page) :
  is_settle e = false → awaiting k p → enabled e p = true →
  awaiting k (fire e p).
Proof.
  intros Hs [Hi Hl] He. unfold awaiting.
  destruct e; try discriminate Hs; handlers; try (split; [exact Hi | exact Hl]).
  - (* ClickGenerate is disabled *)
    cbn [enabled] in He. rewrite Hl, orb_true_r, andb_false_r in He. discriminate.
  - case_match; (split; [exact Hi | exact Hl]).
  - case_match; (split; [exact Hi | exact Hl]).
Qed.

Lemma awaiting_run (k : Closure) (es : list Event) (p p' : Page) :
  forallb (fun e => negb (is_settle e)) es = true →
  awaiting k p → run es p = Some p' → awaiting k p'.
Proof.
  revert p. induction es as [|e es IH]; simpl; intros p Hall Ha.
  - now intros [= <-].
  - apply andb_prop in Hall as [He Hall]. apply negb_true_iff in He.
    destruct (enabled e p) eqn:En; [|discriminate].
    apply IH; [exact Hall | now apply awaiting_step].
Qed.

(** X17: what a run stores is what it was started with.  If the user
    edits the form while the call is in flight and the call then succeeds,
    the preferences written under [lastPreferences] are those of the moment
    Generate was clicked, not the edited ones, which stay in the session;
    the roadmap shown is the one received. *)
Theorem stored_preferences_are_the_clicked_ones (p p1 : Page)
  (es : list Event) (r : Response) (items : list json) :
  inflight p = [] → enabled ClickGenerate p = true →
  validation_passes (session p) →
  run es (fire ClickGenerate p) = Some p1 →
  forallb (fun e => negb (is_settle e)) es = true →
  try_block r = inr items →
  enabled (Settle 0 r) p1 = true
  ∧ let p2 := fire (Settle 0 r) p1 in
    init_preferences (localStorage (session p2)) = Some (preferences (session p))
    ∧ preferences (session p2) = preferences (session p1)
    ∧ roadmap (session p2) = items
    ∧ inflight p2 = [] ∧ loading (session p2) = false.
Proof.
  intros Hi He Hv Hr Hall Ht.
  assert (Ha : awaiting (capture (session p)) (fire ClickGenerate p)).
  { cbn [fire]. rewrite (begin_passes _ Hv). unfold awaiting.
    cbn [inflight session loading setLoading]. now rewrite Hi. }
  destruct (awaiting_run _ _ _ _ Hall Ha Hr) as [Hi1 Hl1].
  split.
  { cbn [enabled]. rewrite Hi1. apply bool_decide_eq_true. now eexists. }
  cbn [fire]. rewrite Hi1. cbn [lookup list_lookup session inflight delete list_delete].
  rewrite (resume_success _ _ _ items Ht).
  cbn [preferences roadmap loading localStorage setLoading setItem setRoadmap].
  repeat split.
  apply init_preferences_stored.
  rewrite lookup_insert_ne by discriminate. apply lookup_insert_eq.
Qed.

Lemma clicking_page_runs : run before_click fresh_page = Some clicking_page.
Proof. vm_compute. reflexivity. Qed.

Lemma waiting_page_runs :
  run while_waiting (fire ClickGenerate clicking_page) = Some waiting_page.
Proof. vm_compute. reflexivity. Qed.

Lemma clicking_page_passes : validation_passes (session clicking_page).
Proof.
  split; intros H; apply not_truthy_trim in H; vm_compute in H; discriminate.
Qed.

Lemma stored_preferences_are_the_clicked_ones_witness :
  inflight clicking_page = []
  ∧ enabled ClickGenerate clicking_page = true
  ∧ validation_passes (session clicking_page)
  ∧ run while_waiting (fire ClickGenerate clicking_page) = Some waiting_page
  ∧ forallb (fun e => negb (is_settle e)) while_waiting = true
  ∧ try_block (Text wrapped_text) = inr one_step
  ∧ enabled (Settle 0 (Text wrapped_text)) waiting_page = true
  ∧ let p2 := fire (Settle 0 (Text wrapped_text)) waiting_page in
    init_preferences (localStorage (session p2))
    = Some (preferences (session clicking_page))
    ∧ preferences (session p2) = preferences (session waiting_page)
    ∧ roadmap (session p2) = one_step
    ∧ inflight p2 = [] ∧ loading (session p2) = false.
Proof.
  assert (H1 : inflight clicking_page = []) by reflexivity.
  assert (H2 : enabled ClickGenerate clicking_page = true) by reflexivity.
  assert (H5 : forallb (fun e => negb (is_settle e)) while_waiting = true)
    by reflexivity.
  assert (H6 : try_block (Text wrapped_text) = inr one_step)
    by (vm_compute; reflexivity).
  split; [exact H1|]. split; [exact H2|]. split; [exact clicking_page_passes|].
  split; [exact waiting_page_runs|]. split; [exact H5|]. split; [exact H6|].
  exact (stored_preferences_are_the_clicked_ones clicking_page waiting_page
           while_waiting (Text wrapped_text) one_step
           H1 H2 clicking_page_passes waiting_page_runs H5 H6).
Defined.
